(** * Gosling: an agent loop driving an Android device through adb

    A shallow embedding of [gosling.py]: the tool-call dispatcher
    ([handle_tool_calls]), the transcript retention policy
    ([clean_messages]), the agent loop ([call_llm]) and the screen
    encoder ([process_screenshot]), followed by the properties the
    specification states about them.

    Python strings are kept as their UTF-8 bytes in [string]; Python
    integers are [Z]; a raised exception is a value of [exn]; the device
    behind [adb shell] is a state machine supplied by the environment. *)

From Stdlib Require Import ZArith QArith Qround Qabs List String Ascii Bool Lia Lqa.
From Stdlib Require Import Numbers.DecimalString Floats.SpecFloat.
Import ListNotations.

Local Open Scope Z_scope.
Local Open Scope list_scope.
Local Open Scope string_scope.

(* ================================================================== *)
(** ** Python string operations used by the program *)

Module Py.

(** The one-character strings the source spells with escapes. *)
Definition nl_char : ascii := "010"%char.
Definition nl : string := String nl_char "".
Definition dquote : string := String "034"%char "".
Definition squote : string := "'".

(** [s.split(sep)] for a one-character separator. *)
Fixpoint split (sep : ascii) (s : string) : list string :=
  match s with
  | EmptyString => [EmptyString]
  | String c s' =>
      if Ascii.eqb c sep then EmptyString :: split sep s'
      else match split sep s' with
           | [] => [String c EmptyString]
           | piece :: pieces => String c piece :: pieces
           end
  end.

(** [s.startswith(p)] and [s.endswith(p)]. *)
Definition startswith (p s : string) : bool := prefix p s.

Definition endswith (p s : string) : bool :=
  let n := String.length p in
  let m := String.length s in
  (n <=? m)%nat && String.eqb (substring (m - n) n s) p.

(** [s[:-n]]. *)
Definition drop_last (n : nat) (s : string) : string :=
  substring 0 (String.length s - n) s.

(** [s.replace(old, new)] for a non-empty [old]: leftmost occurrences,
    not overlapping.  [skip] counts the characters of a matched
    occurrence that are still to be passed over. *)
Fixpoint replace_from (skip : nat) (old new s : string) : string :=
  match s with
  | EmptyString => EmptyString
  | String c s' =>
      match skip with
      | S k => replace_from k old new s'
      | O =>
          if prefix old s
          then new ++ replace_from (String.length old - 1) old new s'
          else String c (replace_from 0 old new s')
      end
  end.

Definition replace (old new s : string) : string := replace_from 0 old new s.

(** [s.lower()] on the ASCII letters; no other character lowers to an
    ASCII letter of the word the program compares with. *)
Definition lower_char (c : ascii) : ascii :=
  let n := nat_of_ascii c in
  if ((65 <=? n) && (n <=? 90))%nat then ascii_of_nat (n + 32) else c.

Fixpoint lower (s : string) : string :=
  match s with
  | EmptyString => EmptyString
  | String c s' => String (lower_char c) (lower s')
  end.

(** [str(n)] for an integer. *)
Definition str_int (n : Z) : string := NilZero.string_of_int (Z.to_int n).

(** [sep.join(xs)]. *)
Definition join (sep : string) (xs : list string) : string := String.concat sep xs.

End Py.

(** The non-ASCII characters [enter_text] rewrites, as UTF-8. *)
Definition euro_sign : string :=
  String "226"%char (String "130"%char (String "172"%char "")).
Definition o_umlaut : string := String "195"%char (String "182"%char "").

(* ================================================================== *)
(** ** Exceptions and outcomes *)

(** The exception classes the program raises or meets, each with the
    text [str(e)] renders (for [KeyError], the missing key). *)
Inductive exn : Type :=
  | PyException (msg : string)          (* plain [Exception] *)
  | CalledProcessError (msg : string)
  | JSONDecodeError (msg : string)
  | KeyError (key : string)
  | OSError (msg : string)
  | IndexError (msg : string)
  | TypeError (msg : string)
  | AttributeError (msg : string)
  | ValueError (msg : string).

(** [str(e)]: a [KeyError] shows the [repr] of its key. *)
Definition str_exn (e : exn) : string :=
  match e with
  | KeyError key => Py.squote ++ key ++ Py.squote
  | PyException m | CalledProcessError m | JSONDecodeError m | OSError m
  | IndexError m | TypeError m | AttributeError m | ValueError m => m
  end.

Inductive outcome (A : Type) : Type :=
  | Ok (a : A)
  | Raise (e : exn).
Arguments Ok {A} a.
Arguments Raise {A} e.

Definition is_ok {A} (o : outcome A) : bool :=
  match o with Ok _ => true | Raise _ => false end.

(* ================================================================== *)
(** ** Python floats

    A Python [float] is an IEEE 754 binary64 number.  Its finite values
    are rationals, kept in [Q]; every arithmetic operation computes the
    exact result and rounds it to the nearest value with a 53-bit
    significand, ties to even.  The exponent range of binary64 is not
    modelled: the operands the program meets (quotients and products of
    image sides) stay far inside it. *)

Module Float64.

Local Open Scope Z_scope.

Definition precision : Z := 53.

(** Nearest integer to [n / d] for [0 <= n], [0 < d], ties to even. *)
Definition round_half_even (n d : Z) : Z :=
  let q := n / d in
  let r := n mod d in
  match 2 * r ?= d with
  | Lt => q
  | Gt => q + 1
  | Eq => if Z.even q then q else q + 1
  end.

(** The exponent [e] of the unit in the last place of [n / d]:
    [2^52 <= (n / d) / 2^e < 2^53]. *)
Definition ulp_exponent (n d : Z) : Z :=
  let e0 := Z.log2 n - Z.log2 d - precision in
  let num := n * 2 ^ Z.max 0 (- e0) in
  let den := d * 2 ^ Z.max 0 e0 in
  if 2 ^ precision * den <=? num then e0 + 1 else e0.

(** The significand of the rounded value of [n / d], for [0 < n] and
    [0 < d]: the result is [significand * 2 ^ ulp_exponent]. *)
Definition significand (n d : Z) : Z :=
  let e := ulp_exponent n d in
  round_half_even (n * 2 ^ Z.max 0 (- e)) (d * 2 ^ Z.max 0 e).

Definition pow2 (e : Z) : Q :=
  if 0 <=? e then inject_Z (2 ^ e) else 1 # Z.to_pos (2 ^ (- e)).

Definition rn_pos (n d : Z) : Q :=
  Qred (inject_Z (significand n d) * pow2 (ulp_exponent n d)).

(** Rounding to nearest, ties to even. *)
Definition rn (x : Q) : Q :=
  match Qnum x with
  | Z0 => 0%Q
  | Zpos n => rn_pos (Zpos n) (Zpos (Qden x))
  | Zneg n => Qopp (rn_pos (Zpos n) (Zpos (Qden x)))
  end.

(** [float(n)] for an integer below [2^53] in magnitude (exact), and
    the rounded value beyond. *)
Definition of_int (n : Z) : Q := rn (inject_Z n).

(** [a / b] (true division) and [a * b]. *)
Definition div (a b : Q) : Q := rn (a / b)%Q.
Definition mul (a b : Q) : Q := rn (a * b)%Q.

(** Half the gap between 1 and the next float: the relative error of
    one rounding is at most this. *)
Definition unit_roundoff : Q := 1 # (2 ^ 53).

(** [int(x)]: truncation towards zero. *)
Definition to_int (x : Q) : Z := Z.quot (Qnum x) (Zpos (Qden x)).

End Float64.

(** The same three operations with the binary64 arithmetic of the
    Standard Library ([SpecFloat]), to check the model above against. *)
Module Binary64.

Definition of_int (n : Z) : spec_float := binary_normalize 53 1024 n 0 false.

Definition value (f : spec_float) : Q :=
  match f with
  | S754_finite false m e => Qred (inject_Z (Zpos m) * Float64.pow2 e)
  | S754_finite true m e => Qred (inject_Z (Zneg m) * Float64.pow2 e)
  | _ => 0%Q
  end.

(** [int(h * (768 / w))]. *)
Definition scaled_height (w h : Z) : Z :=
  Float64.to_int
    (value (SFmul 53 1024 (of_int h) (SFdiv 53 1024 (of_int 768) (of_int w)))).

End Binary64.

(* ================================================================== *)
(** ** Data model *)

(** A decoded JSON value as a tool handler can observe it: the scalar
    cases, and [VOther] for a float, list or dict, kept as the text
    [str()] gives for it. *)
Inductive pyval : Type :=
  | VNone
  | VBool (b : bool)
  | VInt (n : Z)
  | VStr (s : string)
  | VOther (shown : string).

(** [str(v)], which is also what an f-string field renders. *)
Definition py_str (v : pyval) : string :=
  match v with
  | VNone => "None"
  | VBool true => "True"
  | VBool false => "False"
  | VInt n => Py.str_int n
  | VStr s => s
  | VOther shown => shown
  end.

(** What [json.loads] makes of a non-empty argument text. *)
Inductive decoded : Type :=
  | DObject (items : list (string * pyval))   (* a dict *)
  | DOther.                                   (* list, str, number, bool, null *)

(** The [arguments] field of a call: missing, [None] or empty;
    text [json.loads] rejects (with the decoder's message); or text it
    decodes. *)
Inductive arguments : Type :=
  | ArgAbsent
  | ArgUndecodable (msg : string)
  | ArgDecoded (v : decoded).

Record tool_call : Type := {
  tc_id : string;                 (* tool_call["id"] *)
  tc_name : string;               (* tool_call["function"]["name"] *)
  tc_arguments : arguments        (* tool_call["function"].get("arguments") *)
}.

(** The [source] of an image block. *)
Record image_source : Type := {
  src_type : string;
  src_media_type : string;
  src_data : string
}.

(** A content block: [type], and the optional [text] and [source]. *)
Record block : Type := {
  b_type : string;
  b_text : option string;
  b_source : option image_source
}.

Definition image_block (data : string) : block :=
  {| b_type := "image"; b_text := None;
     b_source := Some {| src_type := "base64"; src_media_type := "image/jpeg";
                         src_data := data |} |}.
Definition text_block (text : string) : block :=
  {| b_type := "text"; b_text := Some text; b_source := None |}.

Inductive content : Type :=
  | CText (text : string)
  | CBlocks (blocks : list block).

(** A result of the dispatcher; [output] is a string while the batch
    runs and a [content] once the last result is augmented. *)
Record tool_result (O : Type) : Type := {
  tool_call_id : string;
  output : O
}.
Arguments tool_call_id {O} t.
Arguments output {O} t.

(** A turn.  [m_content = None] stands for a missing or null content;
    [m_tool_calls = []] for a missing, null or empty list. *)
Record message : Type := {
  m_role : string;
  m_content : option content;
  m_tool_call_id : option string;
  m_tool_calls : list tool_call
}.

Definition transcript : Type := list message.

Definition ROLE_ASSISTANT : string := "assistant".
Definition ROLE_USER : string := "user".
Definition UI_HIERARCHY_PROMPT : string :=
  Py.nl ++ "Here's the current UI hierarchy:" ++ Py.nl.
Definition SCREEN_DUMP_PROMPT : string :=
  Py.nl ++ "Here's the current screen dump (base64 encoded jpeg):" ++ Py.nl.

(** A tool definition as [json_function] builds it: every declared
    property is listed as required. *)
Record tool_definition : Type := {
  fn_name : string;
  fn_description : string;
  fn_properties : list (string * (string * string));   (* name, (type, description) *)
  fn_required : list string
}.

Definition json_function (name description : string)
    (properties : list (string * (string * string))) : tool_definition :=
  {| fn_name := name; fn_description := description;
     fn_properties := properties; fn_required := map fst properties |}.

Definition TOOL_DEFINITIONS : list tool_definition :=
  [ json_function "home" "Press the home button on the device" [];
    json_function "click" "Click at specific coordinates on the device screen"
      [("x", ("integer", "X coordinate to click"));
       ("y", ("integer", "Y coordinate to click"))];
    json_function "enter_text"
      "Enter text into the current text field. Text will automatically submit unless you end on ---"
      [("text", ("string", "Text to enter"))];
    json_function "start_app" "Start an application by its package name"
      [("package_name", ("string", "Full package name of the app to start"))];
    json_function "select_text"
      "Select text on the screen between two coordinate points"
      [("start_x", ("integer", "Starting X coordinate for text selection"));
       ("start_y", ("integer", "Starting Y coordinate for text selection"));
       ("end_x", ("integer", "Ending X coordinate for text selection"));
       ("end_y", ("integer", "Ending Y coordinate for text selection"))];
    json_function "swipe"
      "Swipe from one point to another on the screen for example to scroll"
      [("start_x", ("integer", "Starting X coordinate"));
       ("start_y", ("integer", "Starting Y coordinate"));
       ("end_x", ("integer", "Ending X coordinate"));
       ("end_y", ("integer", "Ending Y coordinate"));
       ("duration",
        ("integer",
         "Duration of swipe in milliseconds. Default is 300. Use longer duration (500+) for text selection"))];
    json_function "copy_selected"
      "Copy currently selected text to clipboard and return the value" [] ].

(** An XML element of the UI dump. *)
#[warnings="-register-all"]
Inductive element : Type :=
  | Element (tag : string) (attrib : list (string * string))
            (text tail : string) (children : list element).

Record image (P : Type) : Type := {
  width : Z;
  height : Z;
  pixels : P
}.
Arguments width {P} i.
Arguments height {P} i.
Arguments pixels {P} i.

(* ================================================================== *)
(** ** The environment: device, libraries *)

(** What [subprocess.run(["adb", "shell"] + command, check=True)] can
    do: exit status 0 with its standard output; a non-zero status
    ([CalledProcessError], with its text); or no process at all
    ([OSError], with its text). *)
Inductive transport : Type :=
  | Exit0 (stdout : string)
  | ExitNonZero (shown : string)
  | SpawnError (shown : string).

Class Platform : Type := {
  (** the device behind the relay, a state machine *)
  dev : Type;
  adb_shell : dev -> list string -> dev * transport;
  (** Pillow: decoding, LANCZOS resampling to a size, RGB conversion,
      JPEG encoding at a quality *)
  pixel_data : Type;
  Image_open : string -> outcome (image pixel_data);
  resample_lanczos : image pixel_data -> Z -> Z -> outcome pixel_data;
  convert_RGB : pixel_data -> pixel_data;
  save_jpeg : image pixel_data -> Z -> string;
  (** base64, the UTF-8 codec, ElementTree *)
  b64encode : string -> string;
  bytes_decode : string -> outcome string;
  ET_fromstring : string -> outcome element;
  ET_tostring : element -> string
}.

(** What the program does to the outside, in order. *)
Inductive event : Type :=
  | EvAdb (command : list string)     (* adb shell command *)
  | EvSleep (ms : Z)                  (* time.sleep *)
  | EvWrite (path : string).          (* a file written *)

(* ================================================================== *)
(** ** Effects: device state, event log, exceptions *)

Section Program.

Context {P : Platform}.

Record world : Type := {
  w_dev : dev;
  w_log : list event
}.

(** A computation runs in a world and ends in a value or an exception;
    what it did to the world stays done either way. *)
Definition M (A : Type) : Type := world -> world * outcome A.

Definition ret {A} (a : A) : M A := fun w => (w, Ok a).

Definition raise {A} (e : exn) : M A := fun w => (w, Raise e).

Definition bind {A B} (m : M A) (k : A -> M B) : M B :=
  fun w =>
    match m w with
    | (w', Ok a) => k a w'
    | (w', Raise e) => (w', Raise e)
    end.

Definition lift {A} (o : outcome A) : M A := fun w => (w, o).

Definition emit (ev : event) : M unit :=
  fun w => ({| w_dev := w_dev w; w_log := (w_log w ++ [ev])%list |}, Ok tt).

(** [try: m except classes as e: h e]. *)
Definition try_except {A} (m : M A) (caught : exn -> bool) (h : exn -> M A) : M A :=
  fun w =>
    match m w with
    | (w', Ok a) => (w', Ok a)
    | (w', Raise e) => if caught e then h e w' else (w', Raise e)
    end.

Notation "x <- m ;; k" := (bind m (fun x => k))
  (at level 100, m at next level, right associativity).
Notation "m ;;; k" := (bind m (fun _ => k))
  (at level 100, right associativity).

(** [for x in xs: body x]. *)
Fixpoint for_each {A} (xs : list A) (body : A -> M unit) : M unit :=
  match xs with
  | [] => ret tt
  | x :: xs' => body x ;;; for_each xs' body
  end.

Definition sleep (ms : Z) : M unit := emit (EvSleep ms).

(* ------------------------------------------------------------------ *)
(** *** [run_shell_command]

    Only [CalledProcessError] is caught, and raised again as a plain
    [Exception]; an [OSError] of [subprocess.run] passes through.  The
    [log_message] argument only feeds a print that is commented out. *)
Definition run_shell_command (command : list string) : M string :=
  fun w =>
    let (d', t) := adb_shell (w_dev w) command in
    let w' := {| w_dev := d'; w_log := (w_log w ++ [EvAdb command])%list |} in
    match t with
    | Exit0 stdout => (w', Ok stdout)
    | ExitNonZero shown => (w', Raise (PyException ("Command failed: " ++ shown)))
    | SpawnError shown => (w', Raise (OSError shown))
    end.

(* ------------------------------------------------------------------ *)
(** *** Perception: [process_screenshot], [take_screenshot],
        [clean_node], [clean_hierarchy], [get_ui_hierarchy] *)

Definition MAX_WIDTH : Z := 768.

(** [ratio = MAX_WIDTH / img.width; new_height = int(img.height * ratio)]. *)
Definition new_height (w h : Z) : Z :=
  let ratio := Float64.div (Float64.of_int MAX_WIDTH) (Float64.of_int w) in
  Float64.to_int (Float64.mul (Float64.of_int h) ratio).

(** [img.resize((w, h), LANCZOS)]: Pillow answers with an image of the
    size asked for, or raises. *)
Definition Image_resize (img : image pixel_data) (w h : Z) : outcome (image pixel_data) :=
  match resample_lanczos img w h with
  | Ok px => Ok {| width := w; height := h; pixels := px |}
  | Raise e => Raise e
  end.

(** [img.convert("RGB")] keeps the size. *)
Definition Image_convert_RGB (img : image pixel_data) : image pixel_data :=
  {| width := width img; height := height img; pixels := convert_RGB (pixels img) |}.

(** The image [process_screenshot] encodes: decoded, downsampled when
    wider than [MAX_WIDTH], converted. *)
Definition processed_image (screenshot_data : string) : outcome (image pixel_data) :=
  match Image_open screenshot_data with
  | Raise e => Raise e
  | Ok img =>
      if (MAX_WIDTH <? width img)%Z then
        match Image_resize img MAX_WIDTH (new_height (width img) (height img)) with
        | Raise e => Raise e
        | Ok img' => Ok (Image_convert_RGB img')
        end
      else Ok (Image_convert_RGB img)
  end.

Definition process_screenshot (screenshot_data : string) : M string :=
  img <- lift (processed_image screenshot_data) ;;
  let output := save_jpeg img 85 in
  emit (EvWrite "screenshot.jpg") ;;;
  ret output.

Definition take_screenshot : M string :=
  screenshot_data <- run_shell_command ["screencap"; "-p"] ;;
  processed_data <- process_screenshot screenshot_data ;;
  ret (b64encode processed_data).

Definition removed_attr (kv : string * string) : bool :=
  let value := snd kv in
  String.eqb value "" || String.eqb (Py.lower value) "false".

Fixpoint clean_node (e : element) : element :=
  match e with
  | Element tag attrib text tail children =>
      Element tag (filter (fun kv => negb (removed_attr kv)) attrib)
              text tail (map clean_node children)
  end.

Definition clean_hierarchy (xml_string : string) : outcome string :=
  match ET_fromstring xml_string with
  | Raise e => Raise e
  | Ok root => Ok (ET_tostring (clean_node root))
  end.

Definition get_ui_hierarchy (clean : bool) : M string :=
  run_shell_command ["uiautomator"; "dump"; "/sdcard/window_dump.xml"] ;;;
  raw <- run_shell_command ["cat"; "/sdcard/window_dump.xml"] ;;
  result <- lift (bytes_decode raw) ;;
  if clean then lift (clean_hierarchy result) else ret result.

(* ------------------------------------------------------------------ *)
(** *** [handle_tool_calls] *)

Fixpoint dict_get (key : string) (items : list (string * pyval)) : option pyval :=
  match items with
  | [] => None
  | (k, v) :: items' => if String.eqb k key then Some v else dict_get key items'
  end.

(** [json.loads(function["arguments"]) if function.get("arguments") else {}]. *)
Definition load_arguments (a : arguments) : M decoded :=
  match a with
  | ArgAbsent => ret (DObject [])
  | ArgUndecodable msg => raise (JSONDecodeError msg)
  | ArgDecoded v => ret v
  end.

(** [args[key]]: [KeyError] on a dict without the key, [TypeError] on
    anything that is not a dict. *)
Definition subscript (args : decoded) (key : string) : M pyval :=
  match args with
  | DObject items =>
      match dict_get key items with
      | Some v => ret v
      | None => raise (KeyError key)
      end
  | DOther => raise (TypeError "not subscriptable by a string")
  end.

(** [args.get(key, default)]. *)
Definition get_or (args : decoded) (key : string) (default : pyval) : M pyval :=
  match args with
  | DObject items =>
      match dict_get key items with
      | Some v => ret v
      | None => ret default
      end
  | DOther => raise (AttributeError "object has no attribute 'get'")
  end.

(** The body of [for line in text.split(...)] of [enter_text]. *)
Definition enter_line (line : string) : M unit :=
  let skip_auto_submit := Py.endswith "---" line in
  let line := if skip_auto_submit then Py.drop_last 3 line else line in
  let line := Py.replace "'" " " line in
  let line := Py.replace euro_sign "EUR" line in
  let line := Py.replace o_umlaut "o" line in
  run_shell_command ["input"; "text"; "'" ++ line ++ "'"] ;;;
  if skip_auto_submit then ret tt
  else
    sleep 250 ;;;
    run_shell_command ["input"; "keyevent"; "KEYCODE_ENTER"] ;;;
    ret tt.

(** [json.dumps] of the dict the [screenshot] tool reports. *)
Definition screenshot_json (b64_data : string) : string :=
  let q := Py.dquote in
  "{" ++ q ++ "type" ++ q ++ ": " ++ q ++ "image" ++ q ++ ", "
      ++ q ++ "data" ++ q ++ ": " ++ q ++ b64_data ++ q ++ ", "
      ++ q ++ "mime_type" ++ q ++ ": " ++ q ++ "image/jpeg" ++ q ++ "}".

(** The [try] body for one call, up to the text it hands to
    [add_result]. *)
Definition tool_status (tool_call : tool_call) : M string :=
  let name := tc_name tool_call in
  args <- load_arguments (tc_arguments tool_call) ;;
  if String.eqb name "home" then
    run_shell_command ["input"; "keyevent"; "KEYCODE_HOME"] ;;;
    ret "Pressed home button"
  else if String.eqb name "click" then
    x <- subscript args "x" ;;
    y <- subscript args "y" ;;
    run_shell_command ["input"; "tap"; py_str x; py_str y] ;;;
    ret ("Clicked at coordinates (" ++ py_str x ++ ", " ++ py_str y ++ ")")
  else if String.eqb name "enter_text" then
    text <- subscript args "text" ;;
    match text with
    | VStr s =>
        for_each (Py.split Py.nl_char s) enter_line ;;;
        ret ("Entered text: '" ++ s ++ "'")
    | _ => raise (AttributeError "object has no attribute 'split'")
    end
  else if String.eqb name "screenshot" then
    b64_data <- take_screenshot ;;
    ret ("Here's the screenshot b64 encoded:" ++ Py.nl ++ screenshot_json b64_data)
  else if String.eqb name "start_app" then
    package_name <- subscript args "package_name" ;;
    match package_name with
    | VStr s =>
        run_shell_command
          ["monkey"; "-p"; s; "-c"; "android.intent.category.LAUNCHER"; "1"] ;;;
        ret ("Started app: " ++ s)
    | _ => raise (TypeError "expected str, bytes or os.PathLike object")
    end
  else if String.eqb name "select_text" then
    start_x <- subscript args "start_x" ;;
    start_y <- subscript args "start_y" ;;
    end_x <- subscript args "end_x" ;;
    end_y <- subscript args "end_y" ;;
    run_shell_command
      ["input"; "swipe"; py_str start_x; py_str start_y;
       py_str start_x; py_str start_y; "800"] ;;;
    sleep 500 ;;;
    run_shell_command
      ["input"; "swipe"; py_str start_x; py_str start_y;
       py_str end_x; py_str end_y; "300"] ;;;
    ret ("Selected text from (" ++ py_str start_x ++ ", " ++ py_str start_y
           ++ ") to (" ++ py_str end_x ++ ", " ++ py_str end_y ++ ")")
  else if String.eqb name "swipe" then
    start_x <- subscript args "start_x" ;;
    start_y <- subscript args "start_y" ;;
    end_x <- subscript args "end_x" ;;
    end_y <- subscript args "end_y" ;;
    duration <- get_or args "duration" (VInt 300) ;;
    run_shell_command
      ["input"; "swipe"; py_str start_x; py_str start_y;
       py_str end_x; py_str end_y; py_str duration] ;;;
    ret ("Swiped from (" ++ py_str start_x ++ ", " ++ py_str start_y
           ++ ") to (" ++ py_str end_x ++ ", " ++ py_str end_y ++ ")")
  else if String.eqb name "copy_selected" then
    run_shell_command ["input"; "keyevent"; "KEYCODE_COPY"] ;;;
    raw <- run_shell_command ["service"; "call"; "clipboard"; "get_clipboard"] ;;
    clipboard_content <- lift (bytes_decode raw) ;;
    ret ("Clipboard contents: " ++ clipboard_content)
  else
    ret ("Unknown tool call: " ++ name).

(** The classes of the [except] clause of the dispatcher. *)
Definition caught_by_dispatch (e : exn) : bool :=
  match e with
  | CalledProcessError _ | JSONDecodeError _ | KeyError _ | OSError _ => true
  | _ => false
  end.

Definition add_result (tool_call : tool_call) (output : string)
    (tool_results : list (tool_result string)) : list (tool_result string) :=
  (tool_results ++ [{| tool_call_id := tc_id tool_call; output := output |}])%list.

(** One pass of the [for tool_call in tool_calls] loop. *)
Definition process_tool_call (tool_call : tool_call)
    (tool_results : list (tool_result string)) : M (list (tool_result string)) :=
  try_except
    (output <- tool_status tool_call ;;
     ret (add_result tool_call output tool_results))
    caught_by_dispatch
    (fun e =>
       ret (add_result tool_call ("Error processing tool call: " ++ str_exn e)
                       tool_results)).

Fixpoint process_tool_calls (tool_calls : list tool_call)
    (tool_results : list (tool_result string)) : M (list (tool_result string)) :=
  match tool_calls with
  | [] => ret tool_results
  | tool_call :: rest =>
      tool_results' <- process_tool_call tool_call tool_results ;;
      process_tool_calls rest tool_results'
  end.

Definition plain (r : tool_result string) : tool_result content :=
  {| tool_call_id := tool_call_id r; output := CText (output r) |}.

(** The composite that replaces the output of the last result. *)
Definition augmented (r : tool_result string) (shot ui : string) : tool_result content :=
  {| tool_call_id := tool_call_id r;
     output := CBlocks [image_block shot;
                        text_block (UI_HIERARCHY_PROMPT ++ ui);
                        text_block (output r)] |}.

(** Lines 327-338.  The right-hand side of the assignment is evaluated
    first, left to right: screenshot, UI dump, then [tool_results[-1]],
    which raises [IndexError] on an empty list. *)
Definition augment_last (tool_results : list (tool_result string))
    : M (list (tool_result content)) :=
  shot <- take_screenshot ;;
  ui <- get_ui_hierarchy true ;;
  match rev tool_results with
  | [] => raise (IndexError "list index out of range")
  | last_result :: earlier =>
      ret (map plain (rev earlier) ++ [augmented last_result shot ui])%list
  end.

Definition handle_tool_calls (tool_calls : list tool_call) : M (list (tool_result content)) :=
  tool_results <- process_tool_calls tool_calls [] ;;
  augment_last tool_results.

(* ------------------------------------------------------------------ *)
(** *** [clean_messages]

    The list and its turns are mutated in place; the function hands the
    same list back.  Here it maps the transcript before to the
    transcript after, together with the exception that stopped it, if
    any: the turns rewritten before a failure stay rewritten. *)

(** [entry["type"] != "image" and not entry["text"].startswith(...)]:
    an image is dropped without looking for a text. *)
Definition should_keep (entry : block) : outcome bool :=
  if String.eqb (b_type entry) "image" then Ok false
  else match b_text entry with
       | None => Raise (KeyError "text")
       | Some text => Ok (negb (Py.startswith UI_HIERARCHY_PROMPT text))
       end.

(** [[entry for entry in content if should_keep(entry)]]. *)
Fixpoint kept_entries (content : list block) : outcome (list block) :=
  match content with
  | [] => Ok []
  | entry :: rest =>
      match should_keep entry with
      | Raise e => Raise e
      | Ok keep =>
          match kept_entries rest with
          | Raise e => Raise e
          | Ok rest' => Ok (if keep then entry :: rest' else rest')
          end
      end
  end.

Definition set_content (msg : message) (c : content) : message :=
  {| m_role := m_role msg; m_content := Some c;
     m_tool_call_id := m_tool_call_id msg; m_tool_calls := m_tool_calls msg |}.

(** The loop over [reversed(messages)], newest turn first; [budget] is
    its value on entry. *)
Fixpoint clean_reversed (budget : Z) (newest_first : list message)
    : list message * outcome unit :=
  match newest_first with
  | [] => ([], Ok tt)
  | msg :: older =>
      match m_content msg with
      | Some (CBlocks content) =>
          let budget := budget - 1 in
          if (budget <? 0)%Z then
            match kept_entries content with
            | Raise e => (msg :: older, Raise e)
            | Ok kept =>
                let (older', r) := clean_reversed budget older in
                (set_content msg (CBlocks kept) :: older', r)
            end
          else
            let (older', r) := clean_reversed budget older in
            (msg :: older', r)
      | _ =>
          let (older', r) := clean_reversed budget older in
          (msg :: older', r)
      end
  end.

Definition clean_messages (messages : transcript) : transcript * outcome unit :=
  let (newest_first, r) := clean_reversed 2 (rev messages) in
  (rev newest_first, r).

(* ------------------------------------------------------------------ *)
(** *** [call_llm]

    The backend is a script: the replies it gives, in the order of the
    calls.  Either backend (OpenAI, the Databricks proxy) answers with
    an assistant turn or fails; a failure surfaces as an exception. *)

Inductive backend_reply : Type :=
  | Reply (assistant_message : message)
  | Refused (status_code : Z) (text : string).

(** Lines 392-397: a falsy content is deleted from the turn. *)
Definition drop_empty_content (assistant_message : message) : message :=
  match m_content assistant_message with
  | Some (CText "") | Some (CBlocks []) =>
      {| m_role := m_role assistant_message; m_content := None;
         m_tool_call_id := m_tool_call_id assistant_message;
         m_tool_calls := m_tool_calls assistant_message |}
  | _ => assistant_message
  end.

Definition tool_message (result : tool_result content) : message :=
  {| m_role := "tool"; m_content := Some (output result);
     m_tool_call_id := Some (tool_call_id result); m_tool_calls := [] |}.

(** How a run of the loop stands: it returned the response whose turn
    is [final]; it raised; or the backend has been called and the script
    holds no reply for it. *)
Inductive verdict : Type :=
  | Returned (final : message)
  | Raised (e : exn)
  | Waiting.

Record run : Type := {
  r_verdict : verdict;
  r_messages : transcript;          (* the transcript list, as left *)
  r_sent : list transcript;         (* the payload of every backend call *)
  r_history : list transcript;      (* every state the transcript list took *)
  r_script : list backend_reply;    (* the replies not consumed *)
  r_world : world
}.

(** The states [messages] goes through while [new_turns] are appended
    one at a time. *)
Fixpoint append_states (messages : transcript) (new_turns : list message)
    : list transcript :=
  match new_turns with
  | [] => []
  | turn :: rest =>
      let messages' := (messages ++ [turn])%list in
      messages' :: append_states messages' rest
  end.

(** The [while True] loop; each pass consumes one reply.  [sent] and
    [history] are the records kept so far. *)
Fixpoint call_llm_loop (script : list backend_reply) (messages : transcript)
    (sent history : list transcript) (w : world) : run :=
  let w := fst (emit (EvWrite "messages.json") w) in
  let sent := (sent ++ [messages])%list in
  match script with
  | [] =>
      {| r_verdict := Waiting; r_messages := messages; r_sent := sent;
         r_history := history; r_script := []; r_world := w |}
  | Refused status_code text :: script' =>
      {| r_verdict :=
           Raised (PyException ("Error calling Claude: " ++ Py.str_int status_code
                                  ++ " - " ++ text));
         r_messages := messages; r_sent := sent; r_history := history;
         r_script := script'; r_world := w |}
  | Reply assistant_message :: script' =>
      let assistant_message := drop_empty_content assistant_message in
      let (messages, cleaned) := clean_messages messages in
      let history := (history ++ [messages])%list in
      match cleaned with
      | Raise e =>
          {| r_verdict := Raised e; r_messages := messages; r_sent := sent;
             r_history := history; r_script := script'; r_world := w |}
      | Ok _ =>
          match m_tool_calls assistant_message with
          | [] =>
              {| r_verdict := Returned assistant_message; r_messages := messages;
                 r_sent := sent; r_history := history; r_script := script';
                 r_world := w |}
          | tool_calls =>
              match handle_tool_calls tool_calls w with
              | (w', Raise e) =>
                  {| r_verdict := Raised e; r_messages := messages; r_sent := sent;
                     r_history := history; r_script := script'; r_world := w' |}
              | (w', Ok tool_results) =>
                  let new_turns := assistant_message :: map tool_message tool_results in
                  call_llm_loop script' (messages ++ new_turns)%list sent
                    (history ++ append_states messages new_turns)%list w'
              end
          end
      end
  end.

(** [@retry(wait=wait_fixed(2), stop=stop_after_attempt(2), reraise=True)]:
    when the first attempt raises, the function is called once more,
    two seconds later, on the same transcript list. *)
Definition call_llm (script : list backend_reply) (messages : transcript) (w : world) : run :=
  let first := call_llm_loop script messages [] [messages] w in
  match r_verdict first with
  | Raised _ =>
      call_llm_loop (r_script first) (r_messages first) (r_sent first)
                    (r_history first) (fst (sleep 2000 (r_world first)))
  | _ => first
  end.

(** The transcript [main] starts from. *)
Definition initial_transcript (system_prompt user_input : string) : transcript :=
  [ {| m_role := "system"; m_content := Some (CText system_prompt);
       m_tool_call_id := None; m_tool_calls := [] |};
    {| m_role := "user"; m_content := Some (CText user_input);
       m_tool_call_id := None; m_tool_calls := [] |} ].

Definition main (system_prompt user_input : string) (script : list backend_reply)
    (w : world) : run :=
  call_llm script (initial_transcript system_prompt user_input) w.

(** Line 526: [response["choices"][0]["message"]["content"]], read for
    the last print.  The turn inside the response [call_llm] returns is
    the dict whose [content] the loop deletes when it is falsy. *)
Definition printed_content (final : message) : outcome content :=
  match m_content final with
  | Some c => Ok c
  | None => Raise (KeyError "content")
  end.

End Program.

(* ================================================================== *)
(** ** A bench environment

    A device that replays a list of answers, one per command, and
    answers with an empty output once the list is used up; a decoder
    that reads every capture as a 1080 x 2400 image; codecs that leave
    their input as it is. *)

Module Bench.

Definition replay (d : list transport) (command : list string)
    : list transport * transport :=
  match d with
  | [] => ([], Exit0 "")
  | t :: d' => (d', t)
  end.

#[export] Instance platform : Platform := {|
  dev := list transport;
  adb_shell := replay;
  pixel_data := unit;
  Image_open := fun _ => Ok {| width := 1080; height := 2400; pixels := tt |};
  resample_lanczos := fun _ _ _ => Ok tt;
  convert_RGB := fun px => px;
  save_jpeg := fun _ _ => "JPEG";
  b64encode := fun s => s;
  bytes_decode := fun s => Ok s;
  ET_fromstring := fun _ => Ok (Element "hierarchy" [] "" "" []);
  ET_tostring := fun _ => "<hierarchy />"
|}.

(** A world whose device will give the answers [answers], after the
    events [log]; a world where nothing has happened yet. *)
Definition after (answers : list transport) (log : list event) : world :=
  {| w_dev := answers; w_log := log |}.

Definition fresh (answers : list transport) : world := after answers [].

Definition call (id name : string) (items : list (string * pyval)) : tool_call :=
  {| tc_id := id; tc_name := name; tc_arguments := ArgDecoded (DObject items) |}.

Definition assistant (text : string) (tool_calls : list tool_call) : message :=
  {| m_role := "assistant"; m_content := Some (CText text);
     m_tool_call_id := None; m_tool_calls := tool_calls |}.

(** A tool turn as the dispatcher augments it. *)
Definition composite (id status : string) : message :=
  {| m_role := "tool";
     m_content := Some (CBlocks [image_block "JPEG";
                                 text_block (UI_HIERARCHY_PROMPT ++ "<hierarchy />");
                                 text_block status]);
     m_tool_call_id := Some id; m_tool_calls := [] |}.

End Bench.

(* ================================================================== *)
(** ** Vocabulary of the properties *)

(** [insert_at n x l]: [l] with [x] put in front of its [n]-th element. *)
Definition insert_at {A} (n : nat) (x : A) (l : list A) : list A :=
  (firstn n l ++ x :: skipn n l)%list.

(** [chain R l]: every element of [l] is related to the next one. *)
Fixpoint chain {A} (R : A -> A -> Prop) (l : list A) : Prop :=
  match l with
  | a :: (b :: _) as rest => R a b /\ chain R rest
  | _ => True
  end.

(** The arguments the catalogue declares required for a tool. *)
Definition required_arguments (name : string) : list string :=
  match find (fun d => String.eqb (fn_name d) name) TOOL_DEFINITIONS with
  | Some d => fn_required d
  | None => []
  end.

(** The keys a handler reads as [args[key]], in the order it reads
    them. *)
Definition subscripted_keys (name : string) : list string :=
  if String.eqb name "click" then ["x"; "y"]
  else if String.eqb name "enter_text" then ["text"]
  else if String.eqb name "start_app" then ["package_name"]
  else if String.eqb name "select_text" then ["start_x"; "start_y"; "end_x"; "end_y"]
  else if String.eqb name "swipe" then ["start_x"; "start_y"; "end_x"; "end_y"]
  else [].

(** The first of [keys] that the dict lacks. *)
Fixpoint first_missing (keys : list string) (items : list (string * pyval))
    : option string :=
  match keys with
  | [] => None
  | key :: keys' =>
      match dict_get key items with
      | None => Some key
      | Some _ => first_missing keys' items
      end
  end.

(** The items of the dict [args] of a call, when it is one: absent
    arguments stand for the empty dict. *)
Definition argument_items (a : arguments) : option (list (string * pyval)) :=
  match a with
  | ArgAbsent => Some []
  | ArgDecoded (DObject items) => Some items
  | _ => None
  end.

(** The result the dispatcher records for a call whose handler raised
    [e]. *)
Definition error_result (tool_call : tool_call) (e : exn) : tool_result string :=
  {| tool_call_id := tc_id tool_call;
     output := "Error processing tool call: " ++ str_exn e |}.

(** The identifier and the status text a result carries: the string
    itself, or the text of the last block of a composite. *)
Definition status_text (c : content) : string :=
  match c with
  | CText s => s
  | CBlocks blocks =>
      match b_text (last blocks (text_block "")) with
      | Some s => s
      | None => ""
      end
  end.

Definition entry (r : tool_result content) : string * string :=
  (tool_call_id r, status_text (output r)).

(** A block of one of the two types of the data model: an image, or
    one that carries a text; a turn whose blocks, if it has any, are
    such. *)
Definition typed_block (entry : block) : Prop :=
  b_type entry = "image" \/ exists text, b_text entry = Some text.

Definition typed_turn (msg : message) : Prop :=
  forall content, m_content msg = Some (CBlocks content) -> Forall typed_block content.

(** The number of turns of [t] whose content is a list of blocks. *)
Fixpoint list_turns (t : list message) : Z :=
  match t with
  | [] => 0
  | msg :: t' =>
      match m_content msg with
      | Some (CBlocks _) => 1 + list_turns t'
      | _ => list_turns t'
      end
  end.

(** [sys] is the first turn of [t] and the only one with the system
    role. *)
Definition system_first (sys : message) (t : transcript) : Prop :=
  m_role sys = "system" /\
  exists rest, t = sys :: rest /\ Forall (fun m => m_role m <> "system") rest.

(** A reply that keeps to the protocol: its turn has the assistant
    role. *)
Definition from_assistant (reply : backend_reply) : Prop :=
  match reply with
  | Reply assistant_message => m_role assistant_message = ROLE_ASSISTANT
  | Refused _ _ => True
  end.

Section Cooperation.

Context {P : Platform}.

(** The device state reached from [d] by the commands [commands]. *)
Fixpoint dev_after (d : dev) (commands : list (list string)) : dev :=
  match commands with
  | [] => d
  | c :: commands' => dev_after (fst (adb_shell d c)) commands'
  end.

(** A device that answers every command with status 0, whatever it was
    sent before. *)
Definition steady (d : dev) : Prop :=
  forall commands c, exists stdout,
    snd (adb_shell (dev_after d commands) c) = Exit0 stdout.

(** Libraries that accept whatever they are given. *)
Record cooperative : Prop := {
  open_ok : forall data, exists img, Image_open data = Ok img;
  resample_ok : forall img w h, exists px, resample_lanczos img w h = Ok px;
  decode_ok : forall raw, exists s, bytes_decode raw = Ok s;
  parse_ok : forall xml, exists root, ET_fromstring xml = Ok root
}.

(** Arguments a handler can work with: absent, undecodable or a dict;
    the text of [enter_text] and the package of [start_app], when
    given, are strings. *)
Definition well_typed (tool_call : tool_call) : bool :=
  match tc_arguments tool_call with
  | ArgDecoded DOther => false
  | ArgDecoded (DObject items) =>
      (if String.eqb (tc_name tool_call) "enter_text"
       then match dict_get "text" items with
            | Some (VStr _) | None => true
            | Some _ => false
            end
       else true)
      && (if String.eqb (tc_name tool_call) "start_app"
          then match dict_get "package_name" items with
               | Some (VStr _) | None => true
               | Some _ => false
               end
          else true)
  | _ => true
  end.

(** Successive payloads of the backend calls of one [call_llm]: the
    same (the backend refused and the call was retried), or the earlier
    one pruned -- wholly, or as far as pruning got before it raised --
    and followed by the turns appended since: none when the attempt
    raised, else the assistant turn and its tool turns. *)
Inductive next_payload (p : transcript) : transcript -> Prop :=
  | next_same : next_payload p p
  | next_pruned : next_payload p (fst (clean_messages p))
  | next_round (assistant_message : message) (tool_results : list (tool_result content)) :
      next_payload p
        (fst (clean_messages p)
           ++ assistant_message :: map tool_message tool_results)%list.

(** [block_sublist l l']: the blocks of [l] are blocks of [l'], in the
    same order. *)
Inductive block_sublist : list block -> list block -> Prop :=
  | bs_nil : block_sublist [] []
  | bs_keep b l l' : block_sublist l l' -> block_sublist (b :: l) (b :: l')
  | bs_drop b l l' : block_sublist l l' -> block_sublist l (b :: l').

(** [m'] is the turn [m], with the same role, call identifier and tool
    calls; its content is the same or, where it is a list of blocks, a
    sublist of it. *)
Definition same_turn (m m' : message) : Prop :=
  m_role m' = m_role m /\
  m_tool_call_id m' = m_tool_call_id m /\
  m_tool_calls m' = m_tool_calls m /\
  (m_content m' = m_content m \/
   exists blocks blocks',
     m_content m = Some (CBlocks blocks) /\
     m_content m' = Some (CBlocks blocks') /\
     block_sublist blocks' blocks).

(** [t'] comes from [t] by rewriting contents and appending turns. *)
Definition extends (t t' : transcript) : Prop :=
  exists kept added, t' = (kept ++ added)%list /\ Forall2 same_turn t kept.

(** What is known of the record of states at a point of a run that
    started with the system turn [sys]: the record ends with the current
    transcript, every state has the system turn first and alone, every
    state extends the one before, and every payload sent is one of the
    states. *)
Definition sound (sys : message) (history sent : list transcript)
    (messages : transcript) : Prop :=
  last history [] = messages
  /\ history <> []
  /\ Forall (system_first sys) history
  /\ chain extends history
  /\ Forall (fun p => In p history) sent.

End Cooperation.

(* ================================================================== *)
(** ** Further vocabulary *)

(** Every attribute of the tree under [e], in document order. *)
Fixpoint all_attributes (e : element) : list (string * string) :=
  match e with
  | Element _ attrib _ _ children => (attrib ++ flat_map all_attributes children)%list
  end.

(** The tree under [e] without its attributes. *)
Fixpoint without_attributes (e : element) : element :=
  match e with
  | Element tag _ text tail children =>
      Element tag [] text tail (map without_attributes children)
  end.

(** The names the dispatcher has a branch for. *)
Definition handled_tools : list string :=
  ["home"; "click"; "enter_text"; "screenshot"; "start_app"; "select_text";
   "swipe"; "copy_selected"].

(** [c in s] for a character. *)
Fixpoint has_char (c : ascii) (s : string) : bool :=
  match s with
  | EmptyString => false
  | String d s' => Ascii.eqb d c || has_char c s'
  end.

(** An event that is not an [input text] command, or is one whose text
    stands between single quotes and has no single quote in it. *)
Definition quoted_text_event (ev : event) : Prop :=
  match ev with
  | EvAdb ["input"; "text"; arg] =>
      exists payload,
        arg = ("'" ++ payload ++ "'")%string /\ has_char "'"%char payload = false
  | _ => True
  end.

(** What [enter_text] does for one line on a device that accepts the
    commands. *)
Definition line_events (line : string) : list event :=
  let text := if Py.endswith "---" line then Py.drop_last 3 line else line in
  let text := Py.replace o_umlaut "o" (Py.replace euro_sign "EUR" (Py.replace "'" " " text)) in
  EvAdb ["input"; "text"; ("'" ++ text ++ "'")%string]
    :: (if Py.endswith "---" line then []
        else [EvSleep 250; EvAdb ["input"; "keyevent"; "KEYCODE_ENTER"]]).

(** A transcript in which every turn with tool calls is followed at
    once by one tool turn per call, in the order of the calls and with
    their identifiers, and no tool turn stands elsewhere. *)
Inductive answered : transcript -> Prop :=
  | answered_nil : answered []
  | answered_plain msg t :
      m_tool_calls msg = [] -> m_role msg <> "tool" ->
      answered t -> answered (msg :: t)
  | answered_round msg tools t :
      m_tool_calls msg <> [] -> m_role msg <> "tool" ->
      map m_tool_call_id tools = map (fun c => Some (tc_id c)) (m_tool_calls msg) ->
      Forall (fun m => m_role m = "tool" /\ m_tool_calls m = []) tools ->
      answered t -> answered (msg :: tools ++ t)%list.

(** A computation that adds only well-quoted events to a log that has
    only such events. *)
Definition keeps_quoting {P : Platform} {A} (m : M A) : Prop :=
  forall w : world,
    Forall quoted_text_event (w_log w) ->
    Forall quoted_text_event (w_log (fst (m w))).

(** A computation that only appends to the log. *)
Definition appends {P : Platform} {A} (m : M A) : Prop :=
  forall w : world, exists added, w_log (fst (m w)) = (w_log w ++ added)%list.

(** A content that Python takes for false: none, the empty string, the
    empty list. *)
Definition falsy (c : option content) : bool :=
  match c with
  | None | Some (CText EmptyString) | Some (CBlocks []) => true
  | _ => false
  end.

(** A turn whose content is a list with an image among its blocks. *)
Definition holds_image (msg : message) : bool :=
  match m_content msg with
  | Some (CBlocks content) =>
      existsb (fun entry => String.eqb (b_type entry) "image") content
  | _ => false
  end.

(** The number of turns of [t] that hold an image. *)
Definition image_turns (t : transcript) : nat := List.length (filter holds_image t).

(** A reply whose turn holds no image. *)
Definition without_image (reply : backend_reply) : Prop :=
  match reply with
  | Reply assistant_message => holds_image assistant_message = false
  | Refused _ _ => True
  end.

(** A reply that asks for tools: it has tool calls, their arguments are
    ones the handlers can work with, and the blocks of its content, if
    it is a list, are images or have a text. *)
Definition asks_for_tools (reply : backend_reply) : Prop :=
  match reply with
  | Reply assistant_message =>
      m_tool_calls assistant_message <> []
      /\ forallb well_typed (m_tool_calls assistant_message) = true
      /\ typed_turn assistant_message
  | Refused _ _ => False
  end.

(* ================================================================== *)
(** * Properties *)

Local Open Scope list_scope.

(* ================================================================== *)
(** ** The dispatcher *)

Section Dispatcher.

Context {P : Platform}.

Lemma process_tool_call_shape tool_call acc w w' rs :
  process_tool_call tool_call acc w = (w', Ok rs) ->
  exists status, rs = add_result tool_call status acc.
Proof.
  unfold process_tool_call, try_except, bind, ret.
  destruct (tool_status tool_call w) as [w1 [status | e]].
  - intros H. inversion H. eauto.
  - destruct (caught_by_dispatch e); intros H; inversion H. eauto.
Qed.

Lemma process_tool_calls_shape tool_calls :
  forall acc w w' rs,
    process_tool_calls tool_calls acc w = (w', Ok rs) ->
    exists new,
      rs = acc ++ new /\ map tool_call_id new = map tc_id tool_calls.
Proof.
  induction tool_calls as [| tool_call rest IH]; intros acc w w' rs H.
  - inversion H. exists []. now rewrite app_nil_r.
  - cbn [process_tool_calls] in H. unfold bind in H.
    destruct (process_tool_call tool_call acc w) as [w1 [rs1 | e]] eqn:E1;
      [| discriminate].
    destruct (process_tool_call_shape _ _ _ _ _ E1) as [status ->].
    destruct (IH _ _ _ _ H) as [new [-> Hids]].
    exists ({| tool_call_id := tc_id tool_call; output := status |} :: new).
    unfold add_result. rewrite <- app_assoc. cbn. now rewrite Hids.
Qed.

(** The accumulated results only grow: a run from [acc] is the run from
    the empty list with [acc] in front. *)
Lemma process_tool_calls_acc tool_calls :
  forall acc w,
    process_tool_calls tool_calls acc w =
    match process_tool_calls tool_calls [] w with
    | (w', Ok new) => (w', Ok (acc ++ new))
    | (w', Raise e) => (w', Raise e)
    end.
Proof.
  induction tool_calls as [| tool_call rest IH]; intros acc w.
  - cbn. unfold ret. now rewrite app_nil_r.
  - cbn [process_tool_calls]. unfold bind.
    unfold process_tool_call, try_except, bind, ret, add_result.
    destruct (tool_status tool_call w) as [w1 [status | e]].
    + rewrite (IH (acc ++ _)). rewrite (IH ([] ++ _)).
      destruct (process_tool_calls rest [] w1) as [w2 [new | e]]; trivial.
      now rewrite <- app_assoc.
    + destruct (caught_by_dispatch e); trivial.
      rewrite (IH (acc ++ _)). rewrite (IH ([] ++ _)).
      destruct (process_tool_calls rest [] w1) as [w2 [new | e']]; trivial.
      now rewrite <- app_assoc.
Qed.

Lemma augment_last_shape tool_results w w' rs :
  augment_last tool_results w = (w', Ok rs) ->
  exists earlier last_result shot ui w1,
    tool_results = earlier ++ [last_result] /\
    take_screenshot w = (w1, Ok shot) /\
    get_ui_hierarchy true w1 = (w', Ok ui) /\
    rs = map plain earlier ++ [augmented last_result shot ui].
Proof.
  unfold augment_last, bind.
  destruct (take_screenshot w) as [w1 [shot | e]] eqn:Eshot; [| discriminate].
  destruct (get_ui_hierarchy true w1) as [w2 [ui | e]] eqn:Eui; [| discriminate].
  destruct (rev tool_results) as [| last_result earlier] eqn:Erev.
  - discriminate.
  - unfold ret. intros H. inversion H; subst.
    exists (rev earlier), last_result, shot, ui, w1.
    split; [| auto].
    rewrite <- (rev_involutive tool_results), Erev. reflexivity.
Qed.

End Dispatcher.

Section DispatchClaims.

Context {P : Platform}.

(** C10.  The dispatcher needs a non-empty batch.  On the empty list it
    captures the screen and the UI tree and then fails on
    [tool_results[-1]] with [IndexError] (or earlier, with the failure
    of a capture): it never returns a list.  Its caller does not
    dispatch a reply without tool calls: the loop leaves the device
    alone on such a reply. *)
Theorem handle_tool_calls_needs_a_call :
  forall w : world,
    handle_tool_calls [] w =
      match take_screenshot w with
      | (w1, Raise e) => (w1, Raise e)
      | (w1, Ok _) =>
          match get_ui_hierarchy true w1 with
          | (w2, Raise e) => (w2, Raise e)
          | (w2, Ok _) => (w2, Raise (IndexError "list index out of range"))
          end
      end
    /\ (exists w' e, handle_tool_calls [] w = (w', Raise e))
    /\ (forall role text id script messages sent history,
          r_world (call_llm_loop
                     (Reply {| m_role := role; m_content := text;
                               m_tool_call_id := id; m_tool_calls := [] |} :: script)
                     messages sent history w)
          = fst (emit (EvWrite "messages.json") w)).
Proof.
  intros w.
  assert (E : handle_tool_calls [] w =
      match take_screenshot w with
      | (w1, Raise e) => (w1, Raise e)
      | (w1, Ok _) =>
          match get_ui_hierarchy true w1 with
          | (w2, Raise e) => (w2, Raise e)
          | (w2, Ok _) => (w2, Raise (IndexError "list index out of range"))
          end
      end).
  { unfold handle_tool_calls, augment_last, bind. cbn.
    destruct (take_screenshot w) as [w1 [shot | e]]; reflexivity. }
  split; [exact E |]. split.
  - rewrite E.
    destruct (take_screenshot w) as [w1 [shot | e]]; eauto.
    destruct (get_ui_hierarchy true w1) as [w2 [ui | e]]; eauto.
  - intros role text id script messages sent history.
    cbn [call_llm_loop].
    destruct (clean_messages messages) as [messages' [[] | e]].
    + destruct text as [[[| c s] | [| b bs]] |]; reflexivity.
    + reflexivity.
Qed.

(** What dispatch returns, when it returns. *)
Lemma handle_tool_calls_shape :
  forall (tool_calls : list tool_call) (w w' : world) (rs : list (tool_result content)),
    handle_tool_calls tool_calls w = (w', Ok rs) ->
    tool_calls <> []
    /\ List.length rs = List.length tool_calls
    /\ map tool_call_id rs = map tc_id tool_calls
    /\ exists earlier last_result shot ui w1 w2,
         process_tool_calls tool_calls [] w = (w1, Ok (earlier ++ [last_result]))
         /\ take_screenshot w1 = (w2, Ok shot)
         /\ get_ui_hierarchy true w2 = (w', Ok ui)
         /\ rs = map plain earlier ++ [augmented last_result shot ui].
Proof.
  intros tool_calls w w' rs H.
  unfold handle_tool_calls, bind in H.
  destruct (process_tool_calls tool_calls [] w) as [w1 [results | e]] eqn:Eloop;
    [| discriminate].
  destruct (augment_last_shape _ _ _ _ H)
    as (earlier & last_result & shot & ui & w2 & -> & Eshot & Eui & ->).
  destruct (process_tool_calls_shape _ _ _ _ _ Eloop) as (new & Enew & Hids).
  cbn in Enew. subst new.
  assert (Hmap : map tool_call_id
                   (map plain earlier ++ [augmented last_result shot ui])
                 = map tc_id tool_calls).
  { rewrite <- Hids, !map_app, map_map. reflexivity. }
  repeat split.
  - intros ->. destruct earlier; discriminate.
  - rewrite <- (length_map tool_call_id), Hmap. apply length_map.
  - exact Hmap.
  - exists earlier, last_result, shot, ui, w1, w2. auto.
Qed.

End DispatchClaims.

(** C1: the failing run.  The device answers the tap of the first call
    with a non-zero exit status.  [run_shell_command] turns the
    [CalledProcessError] into a plain [Exception], which the [except]
    clause of the dispatcher does not list: the exception leaves
    [handle_tool_calls], no result is recorded for either call and the
    second call is never executed.  When the same command fails with an
    [OSError] instead, the failure is caught and both calls get their
    result. *)
Theorem nonzero_exit_aborts_the_batch :
  let batch :=
    [Bench.call "call_1" "click" [("x", VInt 10); ("y", VInt 20)];
     Bench.call "call_2" "home" []] in
  handle_tool_calls batch (Bench.fresh [ExitNonZero "returned non-zero exit status 1."])
  = (Bench.after [] [EvAdb ["input"; "tap"; "10"; "20"]],
     Raise (PyException "Command failed: returned non-zero exit status 1."))
  /\ map entry
       (match snd (handle_tool_calls batch (Bench.fresh [SpawnError "No such file: adb"])) with
        | Ok rs => rs
        | Raise _ => []
        end)
     = [("call_1", "Error processing tool call: No such file: adb");
        ("call_2", "Pressed home button")].
Proof. split; reflexivity. Qed.


(* ================================================================== *)
(** ** Dispatch on a steady device *)

Section Steady.

Context {P : Platform}.

Lemma steady_step (d : dev) (c : list string) :
  steady d -> steady (fst (adb_shell d c)).
Proof. intros H commands c'. exact (H (c :: commands) c'). Qed.

Lemma run_shell_command_steady (c : list string) (w : world) :
  steady (w_dev w) ->
  exists stdout w',
    run_shell_command c w = (w', Ok stdout)
    /\ steady (w_dev w')
    /\ w_log w' = w_log w ++ [EvAdb c].
Proof.
  intros H. unfold run_shell_command.
  destruct (H [] c) as [stdout Hout]. cbn in Hout.
  pose proof (steady_step _ c H) as H'.
  destruct (adb_shell (w_dev w) c) as [d' t]. cbn in *. subst t.
  eauto.
Qed.

(** One step of a proof about a computation on a steady device: run the
    next device command. *)
Ltac run_command Hsteady :=
  match goal with
  | |- context [run_shell_command ?c ?w] =>
      let stdout := fresh "stdout" in
      let w' := fresh "w" in
      let E := fresh "E" in
      let Hlog := fresh "Hlog" in
      let Hs := fresh "Hs" in
      destruct (run_shell_command_steady c w Hsteady)
        as (stdout & w' & E & Hs & Hlog);
      rewrite E; clear E Hsteady; rename Hs into Hsteady
  end.

Lemma emit_steady (ev : event) (w : world) :
  steady (w_dev w) -> steady (w_dev (fst (emit ev w))).
Proof. trivial. Qed.

Lemma enter_line_steady (line : string) (w : world) :
  steady (w_dev w) ->
  exists w', enter_line line w = (w', Ok tt) /\ steady (w_dev w').
Proof.
  intros H. unfold enter_line, bind, sleep, emit, ret.
  run_command H.
  destruct (Py.endswith "---" line); [eauto |].
  match goal with
  | |- context [run_shell_command ?c ?w] =>
      destruct (run_shell_command_steady c w H) as (out & w' & E & H' & _)
  end.
  rewrite E. eauto.
Qed.

Lemma for_each_enter_line_steady (lines : list string) :
  forall w, steady (w_dev w) ->
  exists w', for_each lines enter_line w = (w', Ok tt) /\ steady (w_dev w').
Proof.
  induction lines as [| line rest IH]; intros w H.
  - cbn. unfold ret. eauto.
  - cbn [for_each]. unfold bind.
    destruct (enter_line_steady line w H) as (w1 & -> & H1).
    exact (IH w1 H1).
Qed.

Hypothesis libraries : cooperative.

Lemma take_screenshot_steady (w : world) :
  steady (w_dev w) ->
  exists shot w', take_screenshot w = (w', Ok shot) /\ steady (w_dev w').
Proof.
  intros H. unfold take_screenshot, bind.
  run_command H.
  unfold process_screenshot, bind, lift, processed_image, Image_resize.
  destruct (open_ok libraries stdout) as [img ->].
  destruct (MAX_WIDTH <? width img)%Z.
  - destruct (resample_ok libraries img MAX_WIDTH
                (new_height (width img) (height img))) as [px ->].
    cbn. unfold ret. eauto.
  - cbn. unfold ret. eauto.
Qed.

Lemma get_ui_hierarchy_steady (w : world) :
  steady (w_dev w) ->
  exists ui w', get_ui_hierarchy true w = (w', Ok ui) /\ steady (w_dev w').
Proof.
  intros H. unfold get_ui_hierarchy, bind.
  run_command H. run_command H.
  unfold lift, clean_hierarchy.
  destruct (decode_ok libraries stdout0) as [s ->].
  destruct (parse_ok libraries s) as [root ->].
  unfold ret. eauto.
Qed.

Lemma subscript_caught (args : list (string * pyval)) (key : string) (w : world) :
  (exists v, subscript (DObject args) key w = (w, Ok v) /\ dict_get key args = Some v)
  \/ (subscript (DObject args) key w = (w, Raise (KeyError key))
      /\ dict_get key args = None).
Proof.
  unfold subscript, ret, raise.
  destruct (dict_get key args) as [v |]; eauto.
Qed.

(** On a steady device a well-typed call ends in a status or in an
    exception the dispatcher catches. *)
Lemma tool_status_steady (tool_call : tool_call) (w : world) :
  steady (w_dev w) ->
  well_typed tool_call = true ->
  exists w' o,
    tool_status tool_call w = (w', o)
    /\ steady (w_dev w')
    /\ match o with Ok _ => True | Raise e => caught_by_dispatch e = true end.
Proof.
  intros H Htyped. unfold tool_status, well_typed in *.
  destruct tool_call as [id name arguments]. cbn [tc_name tc_arguments] in *.
  unfold bind at 1.
  destruct arguments as [| msg | [items |]]; cbn [load_arguments];
    unfold ret at 1, raise at 1; try discriminate;
    try (now eexists; eexists; repeat split; eauto).
  all: repeat match goal with
         | |- context [if String.eqb ?n ?s then _ else _] =>
             destruct (String.eqb n s) eqn:?
         end.
  all: unfold bind, ret, sleep, emit, lift.
  all: repeat match goal with
         | |- context [subscript (DObject ?a) ?k ?w] =>
             let Hget := fresh "Hget" in
             destruct (subscript_caught a k w) as [(? & -> & Hget) | [-> Hget]];
             [| now eexists; eexists; repeat split; eauto]
         end.
  all: try match goal with
         | Hg : dict_get _ [] = Some _ |- _ => discriminate Hg
         end.
  all: try rewrite Hget in Htyped.
  all: try match goal with
         | |- context [match ?v with VStr _ => _ | _ => _ end] =>
             destruct v; try discriminate
         end.
  all: try (cbn [get_or dict_get]; unfold ret;
            match goal with
            | |- context [match dict_get ?k ?a with _ => _ end] =>
                destruct (dict_get k a)
            end).
  all: repeat run_command H.
  all: try now (eexists; eexists; repeat split; eauto).
  all: try (destruct (take_screenshot_steady w H) as (shot & w' & -> & H');
            now eexists; eexists; repeat split; eauto).
  all: try (match goal with
            | |- context [bytes_decode ?raw] =>
                destruct (decode_ok libraries raw) as [decoded_text ->]
            end;
            now eexists; eexists; repeat split; eauto).
  match goal with
  | |- context [for_each ?lines enter_line ?w] =>
      destruct (for_each_enter_line_steady lines w H) as (w' & -> & H')
  end.
  now eexists; eexists; repeat split; eauto.
Qed.

End Steady.

Section SteadyDispatch.

Context {P : Platform}.
Hypothesis libraries : cooperative.

Lemma process_tool_call_steady tool_call acc (w : world) :
  steady (w_dev w) ->
  well_typed tool_call = true ->
  exists w' status,
    process_tool_call tool_call acc w = (w', Ok (add_result tool_call status acc))
    /\ steady (w_dev w').
Proof.
  intros H Htyped.
  destruct (tool_status_steady libraries tool_call w H Htyped)
    as (w' & o & E & H' & Ho).
  unfold process_tool_call, try_except, bind, ret. rewrite E.
  destruct o as [status | e]; [eauto |].
  rewrite Ho. eauto.
Qed.

Lemma process_tool_calls_steady tool_calls :
  forall acc (w : world),
    steady (w_dev w) ->
    forallb well_typed tool_calls = true ->
    exists w' rs,
      process_tool_calls tool_calls acc w = (w', Ok rs) /\ steady (w_dev w').
Proof.
  induction tool_calls as [| tool_call rest IH]; intros acc w H Htyped.
  - cbn. unfold ret. eauto.
  - cbn in Htyped. apply andb_true_iff in Htyped as [Hhead Hrest].
    cbn [process_tool_calls]. unfold bind.
    destruct (process_tool_call_steady tool_call acc w H Hhead)
      as (w1 & status & -> & H1).
    exact (IH _ w1 H1 Hrest).
Qed.

(** On a steady device, with cooperative libraries, dispatch of a
    non-empty batch of well-typed calls returns. *)
Lemma handle_tool_calls_steady tool_calls (w : world) :
  steady (w_dev w) ->
  forallb well_typed tool_calls = true ->
  tool_calls <> [] ->
  exists w' rs,
    handle_tool_calls tool_calls w = (w', Ok rs) /\ steady (w_dev w').
Proof.
  intros H Htyped Hne.
  destruct (process_tool_calls_steady tool_calls [] w H Htyped)
    as (w1 & results & E & H1).
  unfold handle_tool_calls, bind. rewrite E.
  destruct (process_tool_calls_shape _ _ _ _ _ E) as (new & -> & Hids).
  unfold augment_last, bind.
  destruct (take_screenshot_steady libraries w1 H1) as (shot & w2 & -> & H2).
  destruct (get_ui_hierarchy_steady libraries w2 H2) as (ui & w3 & -> & H3).
  cbn [app].
  destruct (rev new) as [| last_result earlier] eqn:Erev.
  - apply (f_equal (@rev _)) in Erev. rewrite rev_involutive in Erev.
    subst new. destruct tool_calls; [congruence | discriminate].
  - unfold ret. eauto.
Qed.

End SteadyDispatch.

(* ================================================================== *)
(** ** Text entry *)

Section EnterText.

Context {P : Platform}.

(** C7.  On a device that accepts the commands, [enter_text] of the two
    lines [a---] and [b] sends the text [a] with nothing after it, then
    the text [b], waits a quarter of a second and sends the enter
    key: four events, in this order, and nothing else. *)
Theorem enter_text_sentinel_suppresses_submit :
  forall (id : string) (items : list (string * pyval)) (w : world),
    steady (w_dev w) ->
    dict_get "text" items = Some (VStr ("a---" ++ Py.nl ++ "b")) ->
    exists w',
      tool_status {| tc_id := id; tc_name := "enter_text";
                     tc_arguments := ArgDecoded (DObject items) |} w
      = (w', Ok ("Entered text: 'a---" ++ Py.nl ++ "b'")%string)
      /\ w_log w' = w_log w ++ [EvAdb ["input"; "text"; "'a'"];
                                EvAdb ["input"; "text"; "'b'"];
                                EvSleep 250;
                                EvAdb ["input"; "keyevent"; "KEYCODE_ENTER"]].
Proof.
  intros id items w H Htext.
  unfold tool_status. cbn [tc_name tc_arguments load_arguments String.eqb Ascii.eqb Bool.eqb].
  unfold bind at 1, ret at 1. cbn [String.eqb Ascii.eqb Bool.eqb].
  unfold bind at 1, subscript. rewrite Htext. unfold ret at 1.
  change (Py.split Py.nl_char ("a---" ++ Py.nl ++ "b")) with ["a---"; "b"].
  cbn [for_each]. unfold enter_line.
  change (Py.endswith "---" "a---") with true.
  change (Py.endswith "---" "b") with false.
  cbv beta iota zeta.
  change (Py.replace o_umlaut "o"
            (Py.replace euro_sign "EUR" (Py.replace "'" " " (Py.drop_last 3 "a---"))))
    with "a".
  change (Py.replace o_umlaut "o" (Py.replace euro_sign "EUR" (Py.replace "'" " " "b")))
    with "b".
  unfold bind, ret, sleep, emit.
  destruct (run_shell_command_steady ["input"; "text"; ("'" ++ "a" ++ "'")%string] w H)
    as (out1 & w1 & -> & H1 & L1).
  destruct (run_shell_command_steady ["input"; "text"; ("'" ++ "b" ++ "'")%string] w1 H1)
    as (out2 & w2 & -> & H2 & L2).
  cbn [fst snd].
  match goal with
  | |- context [run_shell_command ?c ?w0] =>
      destruct (run_shell_command_steady c w0 H2) as (out3 & w3 & -> & H3 & L3)
  end.
  eexists. split; [reflexivity |].
  rewrite L3. cbn [w_log]. rewrite L2, L1, <- !app_assoc. reflexivity.
Qed.

End EnterText.

(* ================================================================== *)
(** ** Missing arguments *)

Section MissingArgument.

Context {P : Platform}.

Lemma process_tool_calls_app pre :
  forall post acc w,
    process_tool_calls (pre ++ post) acc w =
    match process_tool_calls pre acc w with
    | (w1, Ok rs) => process_tool_calls post rs w1
    | (w1, Raise e) => (w1, Raise e)
    end.
Proof.
  induction pre as [| tool_call pre IH]; intros post acc w.
  - reflexivity.
  - cbn [app process_tool_calls]. unfold bind.
    destruct (process_tool_call tool_call acc w) as [w1 [rs | e]]; [| reflexivity].
    apply IH.
Qed.

Lemma load_arguments_items a items w :
  argument_items a = Some items ->
  load_arguments a w = (w, Ok (DObject items)).
Proof.
  destruct a as [| msg | [items' |]]; cbn; intros H; inversion H; reflexivity.
Qed.

(** Case analysis on the tool name, in the order of the handler's
    [if]/[elif] chain. *)
Ltac by_tool_name name :=
  destruct (String.eqb_spec name "home");
    [subst name |
  destruct (String.eqb_spec name "click");
    [subst name |
  destruct (String.eqb_spec name "enter_text");
    [subst name |
  destruct (String.eqb_spec name "screenshot");
    [subst name |
  destruct (String.eqb_spec name "start_app");
    [subst name |
  destruct (String.eqb_spec name "select_text");
    [subst name |
  destruct (String.eqb_spec name "swipe");
    [subst name |
  destruct (String.eqb_spec name "copy_selected");
    [subst name |]]]]]]]].

(** A handler that misses a key it subscripts raises [KeyError] for the
    first such key before it has sent anything to the device. *)
Lemma tool_status_missing_key tool_call items key (w : world) :
  argument_items (tc_arguments tool_call) = Some items ->
  first_missing (subscripted_keys (tc_name tool_call)) items = Some key ->
  tool_status tool_call w = (w, Raise (KeyError key)).
Proof.
  intros Hitems Hmissing. unfold tool_status.
  destruct tool_call as [id name arguments]. cbn [tc_name tc_arguments] in *.
  unfold bind at 1. rewrite (load_arguments_items _ _ _ Hitems).
  unfold subscripted_keys in Hmissing.
  by_tool_name name; cbn [String.eqb Ascii.eqb Bool.eqb] in *;
    repeat match goal with
      | Hne : ?n <> ?s |- _ =>
          apply String.eqb_neq in Hne; try rewrite Hne in *; clear Hne
      end;
    cbn [first_missing] in Hmissing; try discriminate;
    unfold bind, subscript, raise, ret;
    repeat match type of Hmissing with
      | context [dict_get ?k items] =>
          destruct (dict_get k items);
          [| inversion Hmissing; reflexivity]
      end;
    discriminate.
Qed.

Lemma insert_at_app {A} (l1 l2 : list A) (x : A) :
  insert_at (List.length l1) x (l1 ++ l2) = l1 ++ x :: l2.
Proof.
  unfold insert_at.
  rewrite firstn_app, skipn_app, Nat.sub_diag, firstn_all, skipn_all.
  cbn. now rewrite app_nil_r.
Qed.


End MissingArgument.



(* ================================================================== *)
(** ** Pruning *)

Section Pruning.

Lemma kept_entries_all_kept content :
  forall kept,
    kept_entries content = Ok kept ->
    Forall (fun entry => should_keep entry = Ok true) kept.
Proof.
  induction content as [| entry rest IH]; intros kept H; cbn in H.
  - inversion H. constructor.
  - destruct (should_keep entry) as [keep | e] eqn:Ekeep; [| discriminate].
    destruct (kept_entries rest) as [rest' | e]; [| discriminate].
    destruct keep; inversion H; subst; auto.
Qed.

Lemma kept_entries_fixed kept :
  Forall (fun entry => should_keep entry = Ok true) kept ->
  kept_entries kept = Ok kept.
Proof.
  induction 1 as [| entry rest Hentry _ IH]; cbn.
  - reflexivity.
  - now rewrite Hentry, IH.
Qed.

Lemma kept_entries_idempotent content kept :
  kept_entries content = Ok kept -> kept_entries kept = Ok kept.
Proof. intros H. apply kept_entries_fixed, (kept_entries_all_kept content), H. Qed.

Lemma kept_entries_sublist content :
  forall kept, kept_entries content = Ok kept -> block_sublist kept content.
Proof.
  induction content as [| entry rest IH]; intros kept H; cbn in H.
  - inversion H. constructor.
  - destruct (should_keep entry) as [keep | e]; [| discriminate].
    destruct (kept_entries rest) as [rest' | e]; [| discriminate].
    destruct keep; inversion H; subst; constructor; auto.
Qed.

Lemma clean_reversed_idempotent newest_first :
  forall budget cleaned r,
    clean_reversed budget newest_first = (cleaned, r) ->
    clean_reversed budget cleaned = (cleaned, r).
Proof.
  induction newest_first as [| msg older IH]; intros budget cleaned r H.
  - inversion H. reflexivity.
  - cbn [clean_reversed] in H.
    destruct (m_content msg) as [[text | content] |] eqn:Econtent.
    + destruct (clean_reversed budget older) as [older' r'] eqn:Eolder.
      inversion H; subst. cbn [clean_reversed]. rewrite Econtent.
      now rewrite (IH _ _ _ Eolder).
    + destruct (budget - 1 <? 0)%Z eqn:Ebudget.
      * destruct (kept_entries content) as [kept | e] eqn:Ekept.
        -- destruct (clean_reversed (budget - 1) older) as [older' r'] eqn:Eolder.
           inversion H; subst. cbn [clean_reversed set_content m_content].
           rewrite Ebudget, (kept_entries_idempotent _ _ Ekept), (IH _ _ _ Eolder).
           reflexivity.
        -- inversion H; subst. cbn [clean_reversed].
           now rewrite Econtent, Ebudget, Ekept.
      * destruct (clean_reversed (budget - 1) older) as [older' r'] eqn:Eolder.
        inversion H; subst. cbn [clean_reversed].
        now rewrite Econtent, Ebudget, (IH _ _ _ Eolder).
    + destruct (clean_reversed budget older) as [older' r'] eqn:Eolder.
      inversion H; subst. cbn [clean_reversed]. rewrite Econtent.
      now rewrite (IH _ _ _ Eolder).
Qed.

(** C3.  Pruning a pruned transcript changes nothing: the second pass
    leaves the transcript as the first pass left it, and ends as the
    first pass ended -- normally or, when a block without text stopped
    the first pass, with the same exception at the same turn. *)
Theorem clean_messages_idempotent :
  forall messages : transcript,
    clean_messages (fst (clean_messages messages)) = clean_messages messages.
Proof.
  intros messages. unfold clean_messages.
  destruct (clean_reversed 2 (rev messages)) as [cleaned r] eqn:E.
  cbn [fst]. rewrite rev_involutive.
  now rewrite (clean_reversed_idempotent _ _ _ _ E).
Qed.

Lemma kept_entries_typed content :
  Forall typed_block content -> exists kept, kept_entries content = Ok kept.
Proof.
  induction 1 as [| entry rest Hentry _ [kept IH]]; cbn.
  - eauto.
  - unfold should_keep.
    destruct Hentry as [-> | [text ->]]; cbn; rewrite IH.
    + eauto.
    + destruct (String.eqb (b_type entry) "image"); eauto.
Qed.

Lemma clean_reversed_typed newest_first :
  Forall typed_turn newest_first ->
  forall budget, snd (clean_reversed budget newest_first) = Ok tt.
Proof.
  induction 1 as [| msg older Hmsg _ IH]; intros budget; cbn [clean_reversed].
  - reflexivity.
  - destruct (m_content msg) as [[text | content] |] eqn:Econtent.
    + specialize (IH budget). now destruct (clean_reversed budget older).
    + destruct (budget - 1 <? 0)%Z.
      * destruct (kept_entries_typed content (Hmsg _ Econtent)) as [kept ->].
        specialize (IH (budget - 1)%Z).
        now destruct (clean_reversed (budget - 1) older).
      * specialize (IH (budget - 1)%Z).
        now destruct (clean_reversed (budget - 1) older).
    + specialize (IH budget). now destruct (clean_reversed budget older).
Qed.

(** Pruning returns normally on a transcript whose blocks are images or
    carry a text. *)
Lemma clean_messages_returns (messages : transcript) :
  Forall typed_turn messages -> snd (clean_messages messages) = Ok tt.
Proof.
  intros H. unfold clean_messages.
  pose proof (clean_reversed_typed (rev messages) (Forall_rev H) 2) as E.
  now destruct (clean_reversed 2 (rev messages)).
Qed.

End Pruning.

(* ================================================================== *)
(** ** The turns of the transcript *)

Section Turns.

Context {P : Platform}.

Lemma block_sublist_refl blocks : block_sublist blocks blocks.
Proof. induction blocks; constructor; assumption. Qed.

Lemma same_turn_refl msg : same_turn msg msg.
Proof. unfold same_turn. auto. Qed.

Lemma same_turns_refl (t : transcript) : Forall2 same_turn t t.
Proof. induction t; constructor; auto using same_turn_refl. Qed.

Lemma same_turns_rev (t t' : transcript) :
  Forall2 same_turn t t' -> Forall2 same_turn (rev t) (rev t').
Proof.
  induction 1 as [| m m' t t' Hm _ IH]; cbn.
  - constructor.
  - apply Forall2_app; [exact IH | constructor; [exact Hm | constructor]].
Qed.

Lemma set_content_same msg content kept :
  m_content msg = Some (CBlocks content) ->
  block_sublist kept content ->
  same_turn msg (set_content msg (CBlocks kept)).
Proof.
  intros Hcontent Hsub. unfold same_turn. cbn.
  repeat split. right. eauto.
Qed.

Lemma clean_reversed_same newest_first :
  forall budget, Forall2 same_turn newest_first (fst (clean_reversed budget newest_first)).
Proof.
  induction newest_first as [| msg older IH]; intros budget; cbn [clean_reversed].
  - constructor.
  - destruct (m_content msg) as [[text | content] |] eqn:Econtent.
    + specialize (IH budget). destruct (clean_reversed budget older).
      constructor; [apply same_turn_refl | exact IH].
    + destruct (budget - 1 <? 0)%Z.
      * destruct (kept_entries content) as [kept | e] eqn:Ekept.
        -- specialize (IH (budget - 1)%Z).
           destruct (clean_reversed (budget - 1) older).
           constructor; [| exact IH].
           apply (set_content_same _ content); [exact Econtent |].
           now apply kept_entries_sublist.
        -- apply same_turns_refl.
      * specialize (IH (budget - 1)%Z).
        destruct (clean_reversed (budget - 1) older).
        constructor; [apply same_turn_refl | exact IH].
    + specialize (IH budget). destruct (clean_reversed budget older).
      constructor; [apply same_turn_refl | exact IH].
Qed.

(** Pruning keeps every turn, in its place, with its role. *)
Lemma clean_messages_same (t : transcript) :
  Forall2 same_turn t (fst (clean_messages t)).
Proof.
  unfold clean_messages.
  pose proof (clean_reversed_same (rev t) 2) as H.
  destruct (clean_reversed 2 (rev t)) as [cleaned r]. cbn [fst] in *.
  apply same_turns_rev in H. now rewrite rev_involutive in H.
Qed.

(** A turn whose content is a string is left as it is. *)
Lemma same_turn_text msg msg' text :
  same_turn msg msg' -> m_content msg = Some (CText text) -> msg' = msg.
Proof.
  intros (Hrole & Hid & Hcalls & Hcontent) Htext.
  destruct msg, msg'; cbn in *; subst.
  destruct Hcontent as [-> | (blocks & blocks' & Hblocks & _)];
    [reflexivity | discriminate].
Qed.

Lemma same_turns_roles (t t' : transcript) :
  Forall2 same_turn t t' ->
  Forall (fun m => m_role m <> "system") t ->
  Forall (fun m => m_role m <> "system") t'.
Proof.
  induction 1 as [| m m' t t' Hm _ IH]; intros Hall.
  - constructor.
  - inversion Hall; subst. constructor; [| auto].
    destruct Hm as [-> _]. assumption.
Qed.

Lemma extends_clean (t : transcript) : extends t (fst (clean_messages t)).
Proof.
  exists (fst (clean_messages t)), []. split.
  - now rewrite app_nil_r.
  - apply clean_messages_same.
Qed.

Lemma extends_append (t : transcript) (turn : message) : extends t (t ++ [turn]).
Proof. exists t, [turn]. split; [reflexivity | apply same_turns_refl]. Qed.

Section WithSystemTurn.

Variable sys : message.
Variable system_prompt : string.
Hypothesis sys_content : m_content sys = Some (CText system_prompt).

Lemma system_first_clean (t : transcript) :
  system_first sys t -> system_first sys (fst (clean_messages t)).
Proof.
  intros (Hrole & rest & -> & Hrest). split; [exact Hrole |].
  pose proof (clean_messages_same (sys :: rest)) as H.
  inversion H as [| m m' t t' Hsys Hothers]; subst.
  rewrite (same_turn_text _ _ _ Hsys sys_content).
  exists t'. split; [reflexivity |].
  exact (same_turns_roles _ _ Hothers Hrest).
Qed.

Lemma system_first_append (t : transcript) (turn : message) :
  system_first sys t -> m_role turn <> "system" -> system_first sys (t ++ [turn]).
Proof.
  intros (Hrole & rest & -> & Hrest) Hturn. split; [exact Hrole |].
  exists (rest ++ [turn]). split; [reflexivity |].
  apply Forall_app. split; [exact Hrest | constructor; [exact Hturn | constructor]].
Qed.

Lemma last_in {A} (l : list A) (d : A) : l <> [] -> In (last l d) l.
Proof.
  induction l as [| x l IH]; intros Hne; [congruence |].
  destruct l as [| y l]; [now left |].
  right. apply IH. discriminate.
Qed.

Lemma sound_current history sent messages :
  sound sys history sent messages -> In messages history.
Proof. intros (Hlast & Hne & _). subst messages. now apply last_in. Qed.

Lemma chain_snoc {A} (R : A -> A -> Prop) (l : list A) (d a : A) :
  chain R l -> l <> [] -> R (last l d) a -> chain R (l ++ [a]).
Proof.
  induction l as [| x l IH]; intros Hchain Hne Hlast; [congruence |].
  destruct l as [| y l].
  - cbn in *. auto.
  - cbn [app chain] in *. destruct Hchain as [Hxy Hrest].
    split; [exact Hxy |]. apply IH; trivial. discriminate.
Qed.

Lemma sound_step history sent messages messages' :
  sound sys history sent messages ->
  system_first sys messages' ->
  extends messages messages' ->
  sound sys (history ++ [messages']) sent messages'.
Proof.
  intros (Hlast & Hne & Hall & Hchain & Hsent) Hfirst Hext.
  repeat split.
  - apply last_last.
  - intros H. apply app_eq_nil in H as [_ H]. discriminate.
  - apply Forall_app. split; [exact Hall | constructor; [exact Hfirst | constructor]].
  - apply (chain_snoc _ _ []); trivial. subst messages. exact Hext.
  - eapply Forall_impl; [| exact Hsent]. intros p Hp. apply in_or_app. now left.
Qed.

Lemma sound_send history sent messages :
  sound sys history sent messages -> sound sys history (sent ++ [messages]) messages.
Proof.
  intros (Hlast & Hne & Hall & Hchain & Hsent). repeat split; trivial.
  apply Forall_app. split; [exact Hsent |]. constructor; [| constructor].
  subst messages. now apply last_in.
Qed.

Lemma sound_append new_turns :
  forall history sent messages,
    sound sys history sent messages ->
    Forall (fun m => m_role m <> "system") new_turns ->
    sound sys (history ++ append_states messages new_turns) sent (messages ++ new_turns).
Proof.
  induction new_turns as [| turn rest IH]; intros history sent messages Hsound Hroles.
  - cbn. now rewrite !app_nil_r.
  - inversion Hroles; subst. cbn [append_states].
    replace (history ++ (messages ++ [turn]) :: append_states (messages ++ [turn]) rest)
      with ((history ++ [messages ++ [turn]]) ++ append_states (messages ++ [turn]) rest)
      by (now rewrite <- app_assoc).
    replace (messages ++ turn :: rest) with ((messages ++ [turn]) ++ rest)
      by (now rewrite <- app_assoc).
    apply (IH (history ++ [messages ++ [turn]]) sent (messages ++ [turn]));
      [| assumption].
    apply (sound_step history sent messages); trivial.
    + apply system_first_append; [| assumption].
      pose proof (sound_current _ _ _ Hsound) as Hin.
      destruct Hsound as (_ & _ & Hall & _).
      rewrite Forall_forall in Hall. now apply Hall.
    + apply extends_append.
Qed.

Lemma tool_messages_roles (tool_results : list (tool_result content)) :
  Forall (fun m => m_role m <> "system") (map tool_message tool_results).
Proof.
  induction tool_results; constructor; trivial. cbn. discriminate.
Qed.

Lemma drop_empty_content_role msg :
  m_role (drop_empty_content msg) = m_role msg.
Proof.
  unfold drop_empty_content.
  destruct (m_content msg) as [[[| c s] | [| b bs]] |]; reflexivity.
Qed.

Lemma call_llm_loop_sound script :
  forall messages sent history w,
    Forall from_assistant script ->
    sound sys history sent messages ->
    let r := call_llm_loop script messages sent history w in
    sound sys (r_history r) (r_sent r) (r_messages r)
    /\ Forall from_assistant (r_script r).
Proof.
  induction script as [| reply script IH]; intros messages sent history w Hscript Hsound.
  - cbn. split; [now apply sound_send | constructor].
  - inversion Hscript as [| ? ? Hreply Hrest]; subst.
    apply sound_send in Hsound.
    destruct reply as [assistant_message | status_code text].
    + cbn [call_llm_loop].
      pose proof (extends_clean messages) as Hext.
      assert (Hfirst : system_first sys (fst (clean_messages messages))).
      { apply system_first_clean.
        pose proof (sound_current _ _ _ Hsound) as Hin.
        destruct Hsound as (_ & _ & Hall & _).
        rewrite Forall_forall in Hall. now apply Hall. }
      pose proof (sound_step _ _ _ _ Hsound Hfirst Hext) as Hsound'.
      destruct (clean_messages messages) as [messages' [[] | e]]; cbn [fst] in *.
      * destruct (m_tool_calls (drop_empty_content assistant_message))
          as [| tool_call tool_calls] eqn:Ecalls.
        -- cbn. auto.
        -- destruct (handle_tool_calls (tool_call :: tool_calls) _)
             as [w' [tool_results | e]].
           ++ apply IH; [exact Hrest |].
              apply sound_append; [exact Hsound' |].
              constructor; [| apply tool_messages_roles].
              rewrite drop_empty_content_role. cbn in Hreply. rewrite Hreply.
              discriminate.
           ++ cbn. auto.
      * cbn. auto.
    + cbn. auto.
Qed.

End WithSystemTurn.

(** C8.  In a run of [main] against a backend whose replies are
    assistant turns, every state the transcript goes through has the
    system turn of the start as its first turn and no other turn with
    the system role, and every state extends the one before it: the
    turns it had are still there, in the same order, with the same role,
    call identifier and tool calls, and with the same content or, after
    pruning, a sublist of its blocks.  Pruning alone keeps every turn of
    any transcript in this sense, and a turn whose content is a string,
    as the system turn is, comes out of it untouched.  The transcript
    left at the end and every payload sent to the backend are among
    these states. *)
Theorem transcript_keeps_its_turns :
  forall (system_prompt user_input : string) (script : list backend_reply) (w : world),
    Forall from_assistant script ->
    let sys := {| m_role := "system"; m_content := Some (CText system_prompt);
                  m_tool_call_id := None; m_tool_calls := [] |} in
    let r := main system_prompt user_input script w in
    Forall (system_first sys) (r_history r)
    /\ chain extends (r_history r)
    /\ In (r_messages r) (r_history r)
    /\ Forall (fun payload => In payload (r_history r)) (r_sent r)
    /\ (forall t : transcript, Forall2 same_turn t (fst (clean_messages t)))
    /\ (forall (t : transcript) (msg : message) (text : string),
          In msg t -> m_content msg = Some (CText text) ->
          In msg (fst (clean_messages t))).
Proof.
  intros system_prompt user_input script w Hscript sys r.
  assert (Hstart : sound sys [initial_transcript system_prompt user_input] []
                     (initial_transcript system_prompt user_input)).
  { repeat split; try (constructor; fail); try discriminate.
    constructor; [| constructor]. split; [reflexivity |].
    eexists. split; [reflexivity |].
    constructor; [cbn; discriminate | constructor]. }
  assert (Hsys : m_content sys = Some (CText system_prompt)) by reflexivity.
  assert (Hrun : sound sys (r_history r) (r_sent r) (r_messages r)).
  { subst r. unfold main, call_llm.
    destruct (call_llm_loop_sound sys system_prompt Hsys script _ [] _ w Hscript Hstart)
      as [Hfirst Hscript'].
    destruct (r_verdict (call_llm_loop script _ [] _ w)); trivial.
    apply (call_llm_loop_sound sys system_prompt Hsys); assumption. }
  destruct Hrun as (Hlast & Hne & Hall & Hchain & Hsent).
  repeat split; trivial.
  - rewrite <- Hlast. now apply last_in.
  - apply clean_messages_same.
  - intros t msg text Hin Htext.
    pose proof (clean_messages_same t) as Hsame.
    induction Hsame as [| m m' t t' Hm _ IH]; [contradiction |].
    destruct Hin as [-> | Hin].
    + left. exact (same_turn_text _ _ _ Hm Htext).
    + right. auto.
Qed.

End Turns.

(** A run against replies that keep to the protocol. *)
Lemma transcript_keeps_its_turns_witness :
  let script :=
    [Reply (Bench.assistant "" [Bench.call "call_1" "home" []]);
     Reply (Bench.assistant "done" [])] in
  let sys := {| m_role := "system"; m_content := Some (CText "You are an assistant");
                m_tool_call_id := None; m_tool_calls := [] |} in
  let r := main "You are an assistant" "open the clock" script (Bench.fresh []) in
  Forall from_assistant script
  /\ Forall (system_first sys) (r_history r)
  /\ chain extends (r_history r).
Proof.
  cbv zeta.
  assert (H : Forall from_assistant
                [Reply (Bench.assistant "" [Bench.call "call_1" "home" []]);
                 Reply (Bench.assistant "done" [])])
    by (repeat constructor).
  destruct (transcript_keeps_its_turns "You are an assistant" "open the clock"
              _ (Bench.fresh []) H) as (Hfirst & Hchain & _).
  split; [exact H | split; [exact Hfirst | exact Hchain]].
Defined.

(* ================================================================== *)
(** ** When pruning happens *)

Section Payloads.

Context {P : Platform}.

Lemma call_llm_loop_sent script :
  forall messages sent history w,
    chain next_payload (sent ++ [messages]) ->
    let r := call_llm_loop script messages sent history w in
    chain next_payload (r_sent r)
    /\ r_sent r <> []
    /\ (exists before, r_sent r = sent ++ messages :: before)
    /\ (forall e, r_verdict r = Raised e ->
                  next_payload (last (r_sent r) []) (r_messages r)).
Proof.
  induction script as [| reply script IH]; intros messages sent history w Hchain.
  - cbn. repeat split; trivial.
    + intros H. apply app_eq_nil in H as [_ H]. discriminate.
    + now exists [].
    + discriminate.
  - destruct reply as [assistant_message | status_code text].
    + cbn [call_llm_loop].
      destruct (clean_messages messages) as [messages' [[] | e]] eqn:Eclean.
      * destruct (m_tool_calls (drop_empty_content assistant_message))
          as [| tool_call tool_calls].
        -- cbn. repeat split; trivial.
           ++ intros H. apply app_eq_nil in H as [_ H]. discriminate.
           ++ now exists [].
           ++ discriminate.
        -- destruct (handle_tool_calls (tool_call :: tool_calls) _)
             as [w' [tool_results | e]].
           ++ match goal with
              | |- context [call_llm_loop script ?m ?s ?h ?w0] =>
                  destruct (IH m s h w0) as (H1 & H2 & (before & H3) & H4)
              end.
              { apply (chain_snoc _ _ []); trivial.
                - intros H. apply app_eq_nil in H as [_ H]. discriminate.
                - rewrite last_last.
                  replace messages' with (fst (clean_messages messages))
                    by (now rewrite Eclean).
                  apply next_round. }
              cbv zeta. repeat split; trivial.
              rewrite H3, <- app_assoc. cbn. eauto.
           ++ cbn. repeat split; trivial.
              ** intros H. apply app_eq_nil in H as [_ H]. discriminate.
              ** now exists [].
              ** intros _ _. rewrite last_last.
                 replace messages' with (fst (clean_messages messages))
                   by (now rewrite Eclean).
                 apply next_pruned.
      * cbn. repeat split; trivial.
        -- intros H. apply app_eq_nil in H as [_ H]. discriminate.
        -- now exists [].
        -- intros _ _. rewrite last_last.
           replace messages' with (fst (clean_messages messages))
             by (now rewrite Eclean).
           apply next_pruned.
    + cbn. repeat split; trivial.
      * intros H. apply app_eq_nil in H as [_ H]. discriminate.
      * now exists [].
      * intros _ _. rewrite last_last. apply next_same.
Qed.


End Payloads.


(* ================================================================== *)
(** ** One round, then the answer *)

Section OneRound.

Context {P : Platform}.

Lemma list_turns_nonneg t : (0 <= list_turns t)%Z.
Proof.
  induction t as [| msg t IH]; cbn [list_turns]; [lia |].
  destruct (m_content msg) as [[text | content] |]; lia.
Qed.

Lemma list_turns_app t t' : list_turns (t ++ t') = (list_turns t + list_turns t')%Z.
Proof.
  induction t as [| msg t IH]; cbn [list_turns app]; [reflexivity |].
  destruct (m_content msg) as [[text | content] |]; lia.
Qed.

Lemma list_turns_rev t : list_turns (rev t) = list_turns t.
Proof.
  induction t as [| msg t IH]; [reflexivity |].
  cbn [rev]. rewrite list_turns_app. cbn [list_turns].
  destruct (m_content msg) as [[text | content] |]; lia.
Qed.

Lemma clean_reversed_within_budget newest_first :
  forall budget,
    (list_turns newest_first <= budget)%Z ->
    clean_reversed budget newest_first = (newest_first, Ok tt).
Proof.
  induction newest_first as [| msg older IH]; intros budget Hcount;
    cbn [list_turns clean_reversed] in *.
  - reflexivity.
  - pose proof (list_turns_nonneg older).
    destruct (m_content msg) as [[text | content] |].
    + now rewrite IH.
    + destruct (budget - 1 <? 0)%Z eqn:Ebudget; [lia |].
      rewrite IH; [reflexivity | lia].
    + now rewrite IH.
Qed.

(** A transcript with at most two turns of list content is left as it
    is. *)
Lemma clean_messages_within_budget (t : transcript) :
  (list_turns t <= 2)%Z -> clean_messages t = (t, Ok tt).
Proof.
  intros H. unfold clean_messages.
  rewrite clean_reversed_within_budget.
  - now rewrite rev_involutive.
  - now rewrite list_turns_rev.
Qed.

Lemma drop_empty_content_tool_calls msg :
  m_tool_calls (drop_empty_content msg) = m_tool_calls msg.
Proof.
  unfold drop_empty_content.
  destruct (m_content msg) as [[[| c s] | [| b bs]] |]; reflexivity.
Qed.


End OneRound.

(** The bench is cooperative, and its device is steady once its list
    of answers is used up. *)
Lemma bench_cooperative : @cooperative Bench.platform.
Proof. constructor; cbn; eauto. Qed.

Lemma bench_steady : @steady Bench.platform [].
Proof. intros commands c. exists "". induction commands; trivial. Qed.


(* ================================================================== *)
(** ** One result per call *)



(** The two lines on the bench. *)
Lemma enter_text_sentinel_suppresses_submit_witness :
  exists w',
    tool_status
      {| tc_id := "call_1"; tc_name := "enter_text";
         tc_arguments :=
           ArgDecoded (DObject [("text", VStr ("a---" ++ Py.nl ++ "b")%string)]) |}
      (Bench.fresh [])
    = (w', Ok ("Entered text: 'a---" ++ Py.nl ++ "b'")%string)
    /\ w_log w' = w_log (Bench.fresh [])
                    ++ [EvAdb ["input"; "text"; "'a'"];
                        EvAdb ["input"; "text"; "'b'"];
                        EvSleep 250;
                        EvAdb ["input"; "keyevent"; "KEYCODE_ENTER"]].
Proof.
  exact (enter_text_sentinel_suppresses_submit
           "call_1" [("text", VStr ("a---" ++ Py.nl ++ "b")%string)]
           (Bench.fresh []) bench_steady eq_refl).
Defined.

(* ================================================================== *)
(** ** Rounding *)

Section Rounding.

Local Open Scope Z_scope.

(** The rounded quotient is within half a unit of the quotient. *)
Lemma round_half_even_near (n d : Z) :
  0 < d ->
  let m := Float64.round_half_even n d in
  - d <= 2 * (m * d - n) <= d.
Proof.
  intros Hd. unfold Float64.round_half_even.
  pose proof (Z.div_mod n d ltac:(lia)) as Hdiv.
  pose proof (Z.mod_pos_bound n d Hd) as Hmod.
  destruct (Z.compare_spec (2 * (n mod d)) d) as [Heq | Hlt | Hgt];
    [destruct (Z.even (n / d)) |..]; cbv zeta; nia.
Qed.

(** The scaled quotient has at least 53 bits. *)
Lemma ulp_exponent_low (n d : Z) :
  0 < n -> 0 < d ->
  let e := Float64.ulp_exponent n d in
  2 ^ 52 * (d * 2 ^ Z.max 0 e) <= n * 2 ^ Z.max 0 (- e).
Proof.
  intros Hn Hd. unfold Float64.ulp_exponent, Float64.precision.
  destruct (Z.log2_spec n Hn) as [Hn1 Hn2].
  destruct (Z.log2_spec d Hd) as [Hd1 Hd2].
  pose proof (Z.log2_nonneg n) as Ha. pose proof (Z.log2_nonneg d) as Hb.
  set (a := Z.log2 n) in *. set (b := Z.log2 d) in *.
  set (e0 := a - b - 53).
  cbv zeta.
  destruct (Z.leb_spec (2 ^ 53 * (d * 2 ^ Z.max 0 e0)) (n * 2 ^ Z.max 0 (- e0)))
    as [Hbig | Hsmall].
  - (* one more binary digit: the exponent goes up by one *)
    destruct (Z.le_gt_cases 0 e0) as [Hpos | Hneg].
    + rewrite (Z.max_r 0 e0), (Z.max_l 0 (- e0)) in Hbig by lia.
      rewrite (Z.max_r 0 (e0 + 1)), (Z.max_l 0 (- (e0 + 1))) by lia.
      rewrite Z.pow_add_r by lia.
      change (2 ^ 53) with (2 ^ 52 * 2) in Hbig. change (2 ^ 0) with 1 in *.
      change (2 ^ 1) with 2. nia.
    + rewrite (Z.max_l 0 e0), (Z.max_r 0 (- e0)) in Hbig by lia.
      rewrite (Z.max_l 0 (e0 + 1)), (Z.max_r 0 (- (e0 + 1))) by lia.
      replace (- e0) with (- (e0 + 1) + 1) in Hbig by lia.
      rewrite Z.pow_add_r in Hbig by lia.
      change (2 ^ 53) with (2 ^ 52 * 2) in Hbig. change (2 ^ 0) with 1 in *.
      change (2 ^ 1) with 2 in Hbig. nia.
  - destruct (Z.le_gt_cases 0 e0) as [Hpos | Hneg].
    + rewrite (Z.max_r 0 e0), (Z.max_l 0 (- e0)) by lia.
      change (2 ^ 0) with 1.
      assert (H : 2 ^ 52 * (2 ^ (b + 1) * 2 ^ e0) = 2 ^ a).
      { rewrite <- !Z.pow_add_r by lia. f_equal. unfold e0. lia. }
      assert (0 < 2 ^ e0) by (apply Z.pow_pos_nonneg; lia).
      nia.
    + rewrite (Z.max_l 0 e0), (Z.max_r 0 (- e0)) by lia.
      change (2 ^ 0) with 1.
      assert (H : 2 ^ 52 * 2 ^ (b + 1) = 2 ^ a * 2 ^ (- e0)).
      { rewrite <- !Z.pow_add_r by lia. f_equal. unfold e0. lia. }
      assert (0 < 2 ^ (- e0)) by (apply Z.pow_pos_nonneg; lia).
      nia.
Qed.

Local Open Scope Q_scope.

Lemma near_from_scaled (X S Nq Dq Mq c u : Q) :
  0 < Dq -> 0 < S -> 0 < c -> u * c == 1 ->
  Nq * S == X * Dq ->
  Nq * (c - 1) <= Mq * Dq * c ->
  Mq * Dq * c <= Nq * (c + 1) ->
  X * (1 - u) <= Mq * S /\ Mq * S <= X * (1 + u).
Proof.
  intros HD HS Hc Hu Hscaled Hlow Hhigh.
  assert (Hk : 0 < Dq * c) by (apply Qmult_lt_0_compat; assumption).
  split.
  - apply (Qmult_le_r _ _ (Dq * c) Hk).
    setoid_replace (X * (1 - u) * (Dq * c)) with ((X * Dq) * (c - u * c)) by ring.
    rewrite Hu, <- Hscaled.
    setoid_replace (Nq * S * (c - 1)) with (S * (Nq * (c - 1))) by ring.
    setoid_replace (Mq * S * (Dq * c)) with (S * (Mq * Dq * c)) by ring.
    apply Qmult_le_l; assumption.
  - apply (Qmult_le_r _ _ (Dq * c) Hk).
    setoid_replace (X * (1 + u) * (Dq * c)) with ((X * Dq) * (c + u * c)) by ring.
    rewrite Hu, <- Hscaled.
    setoid_replace (Nq * S * (c + 1)) with (S * (Nq * (c + 1))) by ring.
    setoid_replace (Mq * S * (Dq * c)) with (S * (Mq * Dq * c)) by ring.
    apply Qmult_le_l; assumption.
Qed.

Lemma inject_Z_pos (z : Z) : (0 < z)%Z -> 0 < inject_Z z.
Proof. intros H. unfold Qlt. cbn. lia. Qed.

Lemma pow2_negative (e : Z) :
  (e < 0)%Z -> Float64.pow2 e * inject_Z (2 ^ (- e)) == 1.
Proof.
  intros He. unfold Float64.pow2.
  destruct (Z.leb_spec 0 e) as [H | _]; [lia |].
  assert (Hpos : (0 < 2 ^ (- e))%Z) by (apply Z.pow_pos_nonneg; lia).
  unfold Qeq, Qmult, inject_Z. cbn [Qnum Qden].
  rewrite Pos.mul_1_r, Z2Pos.id by exact Hpos. lia.
Qed.

Lemma pow2_positive (e : Z) : 0 < Float64.pow2 e.
Proof.
  unfold Float64.pow2.
  destruct (Z.leb_spec 0 e) as [H | H].
  - apply inject_Z_pos, Z.pow_pos_nonneg; lia.
  - reflexivity.
Qed.

Lemma scaled_quotient (n d e : Z) :
  (0 < d)%Z ->
  inject_Z (n * 2 ^ Z.max 0 (- e)) * Float64.pow2 e
  == inject_Z n / inject_Z d * inject_Z (d * 2 ^ Z.max 0 e).
Proof.
  intros Hd.
  assert (Hdq : ~ inject_Z d == 0).
  { intros H. apply inject_Z_pos in Hd. rewrite H in Hd. discriminate. }
  destruct (Z.le_gt_cases 0 e) as [He | He].
  - rewrite (Z.max_l 0 (- e)), (Z.max_r 0 e) by lia.
    unfold Float64.pow2. destruct (Z.leb_spec 0 e) as [_ | H]; [| lia].
    rewrite !inject_Z_mult. change (inject_Z (2 ^ 0)) with 1. field. exact Hdq.
  - rewrite (Z.max_r 0 (- e)), (Z.max_l 0 e) by lia.
    rewrite !inject_Z_mult. change (inject_Z (2 ^ 0)) with 1.
    setoid_replace (inject_Z n * inject_Z (2 ^ (- e)) * Float64.pow2 e)
      with (inject_Z n * (Float64.pow2 e * inject_Z (2 ^ (- e)))) by ring.
    rewrite (pow2_negative e He). field. exact Hdq.
Qed.

(** One rounding: the rounded value of a positive quotient is within
    the unit roundoff of it, relatively. *)
Lemma rn_pos_near (n d : Z) :
  (0 < n)%Z -> (0 < d)%Z ->
  let x := inject_Z n / inject_Z d in
  x * (1 - Float64.unit_roundoff) <= Float64.rn_pos n d
  /\ Float64.rn_pos n d <= x * (1 + Float64.unit_roundoff).
Proof.
  intros Hn Hd x. unfold Float64.rn_pos. rewrite Qred_correct.
  unfold Float64.significand.
  set (e := Float64.ulp_exponent n d).
  set (N := (n * 2 ^ Z.max 0 (- e))%Z).
  set (D := (d * 2 ^ Z.max 0 e)%Z).
  pose proof (ulp_exponent_low n d Hn Hd) as Hlow. cbv zeta in Hlow.
  fold e N D in Hlow.
  assert (HD : (0 < D)%Z).
  { unfold D. apply Z.mul_pos_pos; [exact Hd |]. apply Z.pow_pos_nonneg; lia. }
  pose proof (round_half_even_near N D HD) as Hnear. cbv zeta in Hnear.
  set (m := Float64.round_half_even N D) in *.
  apply (near_from_scaled x (Float64.pow2 e) (inject_Z N) (inject_Z D) (inject_Z m)
           (inject_Z (2 ^ 53))).
  - now apply inject_Z_pos.
  - apply pow2_positive.
  - reflexivity.
  - reflexivity.
  - apply scaled_quotient. exact Hd.
  - setoid_replace (inject_Z (2 ^ 53) - 1) with (inject_Z (2 ^ 53 - 1)) by reflexivity.
    rewrite <- !inject_Z_mult. rewrite <- Zle_Qle. lia.
  - setoid_replace (inject_Z (2 ^ 53) + 1) with (inject_Z (2 ^ 53 + 1)) by reflexivity.
    rewrite <- !inject_Z_mult. rewrite <- Zle_Qle. lia.
Qed.

(** The same for [rn] on a non-negative rational. *)
Lemma rn_near (x : Q) :
  0 <= x ->
  x * (1 - Float64.unit_roundoff) <= Float64.rn x
  /\ Float64.rn x <= x * (1 + Float64.unit_roundoff).
Proof.
  intros Hx. unfold Float64.rn.
  destruct x as [[| n | n] d]; cbn [Qnum Qden].
  - split; unfold Qle; cbn; lia.
  - pose proof (rn_pos_near (Zpos n) (Zpos d) eq_refl eq_refl) as H. cbv zeta in H.
    rewrite <- (Qmake_Qdiv (Zpos n) d) in H. exact H.
  - unfold Qle in Hx. cbn in Hx. lia.
Qed.


Lemma round_half_even_unit (n : Z) : Float64.round_half_even n 1 = n.
Proof.
  unfold Float64.round_half_even. now rewrite Z.mod_1_r, Z.div_1_r.
Qed.

(** An integer below [2^53] is a float. *)
Lemma of_int_exact (n : Z) :
  (0 <= n < 2 ^ 53)%Z -> Float64.of_int n == inject_Z n.
Proof.
  intros [Hn0 Hn]. unfold Float64.of_int, Float64.rn. cbn [inject_Z Qnum Qden].
  destruct n as [| p | p]; [reflexivity | | lia].
  unfold Float64.rn_pos. rewrite Qred_correct.
  assert (He : (Float64.ulp_exponent (Z.pos p) 1 <= 0)%Z).
  { unfold Float64.ulp_exponent, Float64.precision.
    assert (Z.log2 (Z.pos p) < 53)%Z by (apply Z.log2_lt_pow2; lia).
    change (Z.log2 1) with 0%Z.
    destruct (_ <=? _)%Z; lia. }
  unfold Float64.significand.
  set (e := Float64.ulp_exponent (Z.pos p) 1) in *.
  rewrite (Z.max_r 0 (- e)), (Z.max_l 0 e) by lia.
  change (1 * 2 ^ 0)%Z with 1%Z. rewrite round_half_even_unit.
  destruct (Z.eq_dec e 0) as [-> | Hne].
  - change (- 0)%Z with 0%Z. change (2 ^ 0)%Z with 1%Z.
    rewrite Z.mul_1_r. unfold Float64.pow2. cbn. ring.
  - rewrite inject_Z_mult, <- Qmult_assoc.
    setoid_replace (inject_Z (2 ^ (- e)) * Float64.pow2 e)
      with (Float64.pow2 e * inject_Z (2 ^ (- e))) by ring.
    rewrite pow2_negative by lia. ring.
Qed.

Lemma to_int_floor (x : Q) :
  0 <= x -> inject_Z (Float64.to_int x) <= x /\ x < inject_Z (Float64.to_int x) + 1.
Proof.
  intros Hx.
  assert (E : Float64.to_int x = Qfloor x).
  { unfold Float64.to_int. destruct x as [n d]. cbn [Qfloor Qnum Qden].
    apply Z.quot_div_nonneg; [| reflexivity].
    unfold Qle in Hx. cbn in Hx. lia. }
  rewrite E. split; [apply Qfloor_le |].
  pose proof (Qlt_floor x) as H. rewrite inject_Z_plus in H. exact H.
Qed.


Local Notation "'u'" := (1 # 9007199254740992).

(** The height computed for a downsampled capture is the exact scaled
    height rounded down, or one below it. *)
Lemma new_height_within_one_pixel (w h : Z) :
  (768 < w < 2 ^ 31)%Z ->
  (0 <= h < 2 ^ 31)%Z ->
  (new_height w h * w <= 768 * h <= (new_height w h + 1) * w)%Z.
Proof.
  intros Hw Hh. unfold new_height, Float64.div, Float64.mul, MAX_WIDTH.
  pose proof (of_int_exact 768 ltac:(lia)) as Ha.
  pose proof (of_int_exact w ltac:(lia)) as Hb.
  pose proof (of_int_exact h ltac:(lia)) as Hc.
  remember (Float64.of_int 768) as a eqn:Ea.
  remember (Float64.of_int w) as b eqn:Eb.
  remember (Float64.of_int h) as c eqn:Ec.
  clear Ea Eb Ec.
  assert (HW : inject_Z 768 < inject_Z w) by (rewrite <- Zlt_Qlt; lia).
  assert (HH0 : inject_Z 0 <= inject_Z h) by (rewrite <- Zle_Qle; lia).
  assert (HH : inject_Z h <= inject_Z 2147483647) by (rewrite <- Zle_Qle; lia).
  remember (inject_Z w) as W eqn:EW. remember (inject_Z h) as H eqn:EH.
  change (inject_Z 768) with 768 in *. change (inject_Z 0) with 0 in *.
  change (inject_Z 2147483647) with 2147483647 in *.
  (* the ratio *)
  remember (a / b) as x1 eqn:Ex1.
  assert (Hx1 : x1 * W == 768).
  { subst x1. rewrite Ha, Hb. field. intros E. rewrite E in HW. discriminate HW. }
  assert (Hx1pos : 0 <= x1).
  { apply (Qmult_le_r _ _ W); [lra |]. rewrite Hx1. lra. }
  destruct (rn_near x1 Hx1pos) as [Hr1 Hr2].
  change Float64.unit_roundoff with u in Hr1, Hr2.
  remember (Float64.rn x1) as r eqn:Er. clear Er Ex1.
  assert (HA1 : 768 * (1 - u) <= r * W).
  { setoid_replace (768 * (1 - u)) with (x1 * (1 - u) * W)
      by (rewrite <- Hx1; ring).
    apply Qmult_le_compat_r; [exact Hr1 | lra]. }
  assert (HA2 : r * W <= 768 * (1 + u)).
  { setoid_replace (768 * (1 + u)) with (x1 * (1 + u) * W)
      by (rewrite <- Hx1; ring).
    apply Qmult_le_compat_r; [exact Hr2 | lra]. }
  assert (Hrpos : 0 <= r).
  { apply (Qmult_le_r _ _ W); [lra |]. lra. }
  (* the product *)
  remember (c * r) as x2 eqn:Ex2.
  assert (Hx2pos : 0 <= x2).
  { subst x2. rewrite Hc. apply Qmult_le_0_compat; assumption. }
  destruct (rn_near x2 Hx2pos) as [Hp1 Hp2].
  change Float64.unit_roundoff with u in Hp1, Hp2.
  remember (Float64.rn x2) as p eqn:Ep.
  assert (Hx2 : x2 * W == r * W * H) by (subst x2; rewrite Hc; ring).
  clear Ep Ex2.
  assert (HHA1 : 768 * (1 - u) * H <= r * W * H)
    by (apply Qmult_le_compat_r; assumption).
  assert (HHA2 : r * W * H <= 768 * (1 + u) * H)
    by (apply Qmult_le_compat_r; assumption).
  assert (HP1 : r * W * H * (1 - u) <= p * W).
  { setoid_replace (r * W * H * (1 - u)) with (x2 * (1 - u) * W)
      by (rewrite <- Hx2; ring).
    apply Qmult_le_compat_r; [exact Hp1 | lra]. }
  assert (HP2 : p * W <= r * W * H * (1 + u)).
  { setoid_replace (r * W * H * (1 + u)) with (x2 * (1 + u) * W)
      by (rewrite <- Hx2; ring).
    apply Qmult_le_compat_r; [exact Hp2 | lra]. }
  assert (Hppos : 0 <= p).
  { apply (Qmult_le_r _ _ W); [lra |]. lra. }
  destruct (to_int_floor p Hppos) as [Hf1 Hf2].
  remember (Float64.to_int p) as nh eqn:Enh. clear Enh.
  assert (HN1 : inject_Z nh * W <= p * W)
    by (apply Qmult_le_compat_r; [exact Hf1 | lra]).
  assert (HN2 : p * W < (inject_Z nh + 1) * W)
    by (apply Qmult_lt_compat_r; [lra | exact Hf2]).
  remember (r * W * H) as HA eqn:EHA. remember (p * W) as PW eqn:EPW.
  remember (inject_Z nh * W) as NW eqn:ENW.
  assert (HN3 : PW < NW + W).
  { setoid_replace (NW + W) with ((inject_Z nh + 1) * W) by (subst NW; ring).
    exact HN2. }
  clear EHA EPW HN2 Hx1 Hx2 Hr1 Hr2 Hp1 Hp2 Hf1 Hf2 Ha Hb Hc.
  split.
  - apply Z.lt_succ_r. rewrite Zlt_Qlt.
    unfold Z.succ. rewrite inject_Z_plus, !inject_Z_mult.
    rewrite <- EW, <- EH, <- ENW.
    change (inject_Z 768) with 768. change (inject_Z 1) with 1.
    clear EW EH ENW. lra.
  - apply Z.lt_succ_r. rewrite Zlt_Qlt.
    unfold Z.succ. rewrite !inject_Z_plus, !inject_Z_mult, inject_Z_plus.
    rewrite <- EW, <- EH.
    setoid_replace ((inject_Z nh + inject_Z 1) * W) with (NW + W) by (subst NW; ring).
    change (inject_Z 768) with 768. change (inject_Z 1) with 1.
    clear EW EH ENW. lra.
Qed.

End Rounding.

(* ================================================================== *)
(** ** The size of the encoded screen *)

(** The model of the float arithmetic agrees with the binary64
    arithmetic of the Standard Library on these sizes; on the second
    the float result is one below the exact quotient rounded down. *)
Example new_height_samples :
  map (fun size => new_height (fst size) (snd size))
      [(1080, 2400); (37632, 49); (856, 107); (1440, 3120); (769, 1);
       (2147483647, 2147483647)]%Z
  = [1706; 0; 96; 1664; 0; 768]%Z
  /\ map (fun size => Binary64.scaled_height (fst size) (snd size))
         [(1080, 2400); (37632, 49); (856, 107); (1440, 3120); (769, 1);
          (2147483647, 2147483647)]%Z
     = [1706; 0; 96; 1664; 0; 768]%Z
  /\ (768 * 49 / 37632 = 1)%Z
  /\ (768 * 107 / 856 = 96)%Z.
Proof. repeat split; vm_compute; reflexivity. Qed.

Section Screen.

Context {P : Platform}.


End Screen.


(* ================================================================== *)
(** * Further properties *)

(** ** The reduced UI tree *)

Section UiTree.

(** Induction on a tree, with the property known of every child. *)
Lemma element_induction (Q : element -> Prop) :
  (forall tag attrib text tail children,
      Forall Q children -> Q (Element tag attrib text tail children)) ->
  forall e, Q e.
Proof.
  intros step. fix IH 1. intros [tag attrib text tail children].
  apply step. induction children as [| child rest IHrest].
  - constructor.
  - constructor; [apply IH | exact IHrest].
Qed.

Lemma filter_idempotent {A} (f : A -> bool) (l : list A) :
  filter f (filter f l) = filter f l.
Proof.
  induction l as [| x l IH]; cbn; [reflexivity |].
  destruct (f x) eqn:E; cbn; [rewrite E |]; now rewrite ?IH.
Qed.

Lemma filter_flat_map {A B} (f : B -> bool) (g : A -> list B) (l : list A) :
  filter f (flat_map g l) = flat_map (fun x => filter f (g x)) l.
Proof.
  induction l as [| x l IH]; cbn; [reflexivity |].
  now rewrite filter_app, IH.
Qed.

(** X1.  [clean_node] removes the attributes whose value is empty or
    reads [false] in any letter case, and nothing else: the attributes
    of the cleaned tree are the other attributes of the tree, in their
    order; none of them is empty or [false]; and the tree without its
    attributes is the same before and after. *)
Theorem clean_node_removes_only_empty_and_false :
  forall e : element,
    all_attributes (clean_node e)
      = filter (fun kv => negb (removed_attr kv)) (all_attributes e)
    /\ Forall (fun kv => snd kv <> "" /\ Py.lower (snd kv) <> "false")
              (all_attributes (clean_node e))
    /\ without_attributes (clean_node e) = without_attributes e.
Proof.
  intros e.
  assert (Hkept : all_attributes (clean_node e)
                  = filter (fun kv => negb (removed_attr kv)) (all_attributes e)).
  { induction e as [tag attrib text tail children IH] using element_induction.
    cbn [clean_node all_attributes]. rewrite filter_app. f_equal.
    rewrite filter_flat_map, flat_map_concat_map, map_map, <- flat_map_concat_map.
    induction IH as [| child rest Hchild _ IHrest]; cbn [map flat_map]; [reflexivity |].
    now rewrite Hchild, IHrest. }
  split; [exact Hkept |]. split.
  - rewrite Hkept. apply Forall_forall. intros kv Hin.
    apply filter_In in Hin as [_ Hkeep].
    unfold removed_attr in Hkeep. apply negb_true_iff, orb_false_iff in Hkeep.
    cbv zeta in Hkeep. destruct Hkeep as [Hempty Hfalse].
    split; apply String.eqb_neq; assumption.
  - clear Hkept.
    induction e as [tag attrib text tail children IH] using element_induction.
    cbn [clean_node without_attributes]. f_equal. rewrite map_map.
    induction IH as [| child rest Hchild _ IHrest]; cbn [map flat_map]; [reflexivity |].
    now rewrite Hchild, IHrest.
Qed.

(** X2.  Cleaning a cleaned tree changes nothing. *)
Theorem clean_node_idempotent :
  forall e : element, clean_node (clean_node e) = clean_node e.
Proof.
  intros e.
  induction e as [tag attrib text tail children IH] using element_induction.
  cbn [clean_node]. rewrite filter_idempotent. f_equal. rewrite map_map.
  induction IH as [| child rest Hchild _ IHrest]; cbn [map flat_map]; [reflexivity |].
  now rewrite Hchild, IHrest.
Qed.

End UiTree.

(** ** What pruning strips and what it spares *)

Section Retention.

Lemma should_keep_true (entry : block) :
  should_keep entry = Ok true ->
  b_type entry <> "image"
  /\ exists text,
       b_text entry = Some text /\ Py.startswith UI_HIERARCHY_PROMPT text = false.
Proof.
  unfold should_keep.
  destruct (String.eqb_spec (b_type entry) "image") as [| Hne]; [discriminate |].
  destruct (b_text entry) as [text |]; [| discriminate].
  intros H. injection H as Hkeep. apply negb_true_iff in Hkeep.
  split; [exact Hne | eauto].
Qed.

Lemma is_list_turn_cases (msg : message) :
  (exists content, m_content msg = Some (CBlocks content))
  \/ (forall content, m_content msg <> Some (CBlocks content)).
Proof.
  destruct (m_content msg) as [[text | content] |]; eauto; right; discriminate.
Qed.

Lemma clean_reversed_strips newest_first :
  forall budget cleaned,
    clean_reversed budget newest_first = (cleaned, Ok tt) ->
    forall newer msg older content,
      cleaned = newer ++ msg :: older ->
      (budget <= list_turns newer)%Z ->
      m_content msg = Some (CBlocks content) ->
      Forall (fun entry => should_keep entry = Ok true) content.
Proof.
  induction newest_first as [| head rest IH];
    intros budget cleaned Hclean newer msg older content Hsplit Hbudget Hcontent;
    subst cleaned.
  - injection Hclean as Hsplit. destruct newer; discriminate.
  - cbn [clean_reversed] in Hclean.
    destruct (m_content head) as [[text | blocks] |] eqn:Ehead.
    + destruct (clean_reversed budget rest) as [rest' r] eqn:Erest.
      injection Hclean as Hsplit Hr. subst r.
      destruct newer as [| first newer']; injection Hsplit as Hhead Hrest; subst.
      * congruence.
      * cbn [list_turns] in Hbudget. rewrite Ehead in Hbudget.
        eapply (IH budget); eauto.
    + destruct (budget - 1 <? 0)%Z eqn:Eb.
      * destruct (kept_entries blocks) as [kept | e] eqn:Ekept; [| discriminate].
        destruct (clean_reversed (budget - 1) rest) as [rest' r] eqn:Erest.
        injection Hclean as Hsplit Hr. subst r.
        destruct newer as [| first newer']; injection Hsplit as Hhead Hrest; subst.
        -- cbn in Hcontent. injection Hcontent as Hkept. subst content.
           eapply kept_entries_all_kept; eauto.
        -- cbn [list_turns set_content m_content] in Hbudget.
           eapply (IH (budget - 1)%Z); eauto. lia.
      * destruct (clean_reversed (budget - 1) rest) as [rest' r] eqn:Erest.
        injection Hclean as Hsplit Hr. subst r.
        destruct newer as [| first newer']; injection Hsplit as Hhead Hrest; subst.
        -- cbn [list_turns] in Hbudget. apply Z.ltb_ge in Eb. lia.
        -- cbn [list_turns] in Hbudget. rewrite Ehead in Hbudget.
           eapply (IH (budget - 1)%Z); eauto. lia.
    + destruct (clean_reversed budget rest) as [rest' r] eqn:Erest.
      injection Hclean as Hsplit Hr. subst r.
      destruct newer as [| first newer']; injection Hsplit as Hhead Hrest; subst.
      * congruence.
      * cbn [list_turns] in Hbudget. rewrite Ehead in Hbudget.
        eapply (IH budget); eauto.
Qed.

(** X3.  After a pruning that returned, a turn of list content that has
    two or more turns of list content after it holds no image and no
    text that starts with the UI-hierarchy prompt. *)
Theorem clean_messages_strips_older_turns :
  forall (messages older newer : transcript) (msg : message) (content : list block),
    snd (clean_messages messages) = Ok tt ->
    fst (clean_messages messages) = older ++ msg :: newer ->
    (2 <= list_turns newer)%Z ->
    m_content msg = Some (CBlocks content) ->
    Forall (fun entry =>
              b_type entry <> "image"
              /\ exists text,
                   b_text entry = Some text
                   /\ Py.startswith UI_HIERARCHY_PROMPT text = false)
           content.
Proof.
  intros messages older newer msg content Hok Hsplit Hnewer Hcontent.
  unfold clean_messages in *.
  destruct (clean_reversed 2 (rev messages)) as [cleaned r] eqn:Eclean.
  cbn [fst snd] in *. subst r.
  apply (f_equal (@rev _)) in Hsplit. rewrite rev_involutive in Hsplit.
  rewrite rev_app_distr in Hsplit. cbn [rev] in Hsplit. rewrite <- app_assoc in Hsplit.
  cbn [app] in Hsplit.
  eapply Forall_impl; [intros entry; apply should_keep_true |].
  eapply (clean_reversed_strips _ _ _ Eclean (rev newer) msg (rev older)); eauto.
  now rewrite list_turns_rev.
Qed.

Lemma clean_reversed_length newest_first :
  forall budget,
    List.length (fst (clean_reversed budget newest_first)) = List.length newest_first.
Proof.
  intros budget. symmetry.
  exact (Forall2_length (clean_reversed_same newest_first budget)).
Qed.

Lemma clean_reversed_spares front :
  forall back budget,
    (list_turns front <= budget)%Z ->
    clean_reversed budget (front ++ back)
    = (front ++ fst (clean_reversed (budget - list_turns front) back),
       snd (clean_reversed (budget - list_turns front) back)).
Proof.
  induction front as [| head front IH]; intros back budget Hbudget.
  - cbn [app list_turns]. rewrite Z.sub_0_r. now destruct (clean_reversed budget back).
  - cbn [app clean_reversed list_turns] in *.
    pose proof (list_turns_nonneg front) as Hnonneg.
    destruct (m_content head) as [[text | blocks] |].
    + now rewrite IH.
    + destruct (budget - 1 <? 0)%Z eqn:Eb; [apply Z.ltb_lt in Eb; lia |].
      rewrite IH by lia.
      now replace (budget - 1 - list_turns front)%Z
        with (budget - (1 + list_turns front))%Z by lia.
    + now rewrite IH.
Qed.

(** X4.  Pruning leaves the end of the transcript alone: a final stretch
    of turns with at most two turns of list content among them comes out
    as it went in, whatever stands before it and whether or not the
    pruning of the older turns fails; the turns before it keep their
    number.  A transcript with at most two turns of list content is
    left as it is. *)
Theorem clean_messages_spares_recent_turns :
  forall older recent : transcript,
    (list_turns recent <= 2)%Z ->
    exists older',
      fst (clean_messages (older ++ recent)) = older' ++ recent
      /\ List.length older' = List.length older
      /\ (older = [] -> clean_messages recent = (recent, Ok tt)).
Proof.
  intros older recent Hrecent. unfold clean_messages.
  rewrite rev_app_distr, clean_reversed_spares by now rewrite list_turns_rev.
  cbn [fst].
  exists (rev (fst (clean_reversed (2 - list_turns (rev recent)) (rev older)))).
  split; [| split].
  - now rewrite rev_app_distr, rev_involutive.
  - now rewrite length_rev, clean_reversed_length, length_rev.
  - intros _. now apply clean_messages_within_budget.
Qed.

End Retention.

(** Three composite tool turns: the oldest is stripped, the other two
    are spared. *)
Lemma clean_messages_strips_older_turns_witness :
  let t := [Bench.composite "call_1" "one"; Bench.composite "call_2" "two";
            Bench.composite "call_3" "three"] in
  fst (clean_messages t)
  = [{| m_role := "tool"; m_content := Some (CBlocks [text_block "one"]);
        m_tool_call_id := Some "call_1"; m_tool_calls := [] |};
     Bench.composite "call_2" "two"; Bench.composite "call_3" "three"]
  /\ Forall (fun entry =>
               b_type entry <> "image"
               /\ exists text,
                    b_text entry = Some text
                    /\ Py.startswith UI_HIERARCHY_PROMPT text = false)
            [text_block "one"].
Proof.
  cbv zeta. split; [reflexivity |].
  apply (clean_messages_strips_older_turns
           [Bench.composite "call_1" "one"; Bench.composite "call_2" "two";
            Bench.composite "call_3" "three"]
           []
           [Bench.composite "call_2" "two"; Bench.composite "call_3" "three"]
           {| m_role := "tool"; m_content := Some (CBlocks [text_block "one"]);
              m_tool_call_id := Some "call_1"; m_tool_calls := [] |}).
  - reflexivity.
  - reflexivity.
  - cbn. lia.
  - reflexivity.
Defined.

Lemma clean_messages_spares_recent_turns_witness :
  exists older',
    fst (clean_messages
           ([Bench.composite "call_1" "one"]
              ++ [Bench.composite "call_2" "two"; Bench.composite "call_3" "three"]))
    = older' ++ [Bench.composite "call_2" "two"; Bench.composite "call_3" "three"]
    /\ List.length older' = 1%nat.
Proof.
  destruct (clean_messages_spares_recent_turns
              [Bench.composite "call_1" "one"]
              [Bench.composite "call_2" "two"; Bench.composite "call_3" "three"])
    as (older' & Hsplit & Hlen & _).
  - cbn. lia.
  - exists older'. split; [exact Hsplit | exact Hlen].
Defined.

(** ** Calls that never reach the device *)

Section InertCalls.

Context {P : Platform}.

(** A call that always gets the result [r] and leaves the world as it
    is can be taken out of its batch and its result put back in. *)
Lemma inert_call_is_isolated (pre post : list tool_call) (call : tool_call)
    (r : tool_result string) (w : world) :
  (forall acc w0, process_tool_call call acc w0 = (w0, Ok (acc ++ [r]))) ->
  handle_tool_calls (pre ++ call :: post) w =
  match process_tool_calls (pre ++ post) [] w with
  | (w1, Ok siblings) => augment_last (insert_at (List.length pre) r siblings) w1
  | (w1, Raise e) => (w1, Raise e)
  end.
Proof.
  intros Hcall. unfold handle_tool_calls, bind.
  rewrite !process_tool_calls_app.
  destruct (process_tool_calls pre [] w) as [w1 [rs1 | e]] eqn:Epre; [| reflexivity].
  cbn [process_tool_calls]. unfold bind. rewrite Hcall.
  rewrite (process_tool_calls_acc post (rs1 ++ _)).
  rewrite (process_tool_calls_acc post rs1).
  destruct (process_tool_calls post [] w1) as [w2 [rs2 | e]]; [| reflexivity].
  destruct (process_tool_calls_shape _ _ _ _ _ Epre) as (new & Hnew & Hids).
  cbn in Hnew. subst new.
  assert (Hlen : List.length pre = List.length rs1).
  { rewrite <- (length_map tc_id), <- Hids. apply length_map. }
  rewrite Hlen, insert_at_app, <- app_assoc. reflexivity.
Qed.

(** X5.  A call to a tool the dispatcher has no branch for, with
    arguments that decode (or none), sends nothing to the device and is
    answered [Unknown tool call: name]; the batch goes on as the batch
    of its siblings, with this answer put in at the place of the call. *)
Theorem unknown_tool_is_answered_not_run :
  forall (pre post : list tool_call) (id name : string) (args : arguments) (w : world),
    ~ In name handled_tools ->
    (forall msg, args <> ArgUndecodable msg) ->
    let call := {| tc_id := id; tc_name := name; tc_arguments := args |} in
    let answer := {| tool_call_id := id; output := ("Unknown tool call: " ++ name)%string |} in
    (forall acc w0, process_tool_call call acc w0 = (w0, Ok (acc ++ [answer])))
    /\ handle_tool_calls (pre ++ call :: post) w =
       match process_tool_calls (pre ++ post) [] w with
       | (w1, Ok siblings) => augment_last (insert_at (List.length pre) answer siblings) w1
       | (w1, Raise e) => (w1, Raise e)
       end.
Proof.
  intros pre post id name args w Hname Hargs call answer.
  assert (Hcall : forall acc w0, process_tool_call call acc w0 = (w0, Ok (acc ++ [answer]))).
  { intros acc w0. unfold process_tool_call, try_except, tool_status, call.
    cbn [tc_name tc_arguments tc_id]. unfold bind.
    assert (Hload : exists d, load_arguments args w0 = (w0, Ok d)).
    { destruct args as [| msg | d]; cbn; unfold ret; eauto.
      now destruct (Hargs msg). }
    destruct Hload as [d ->].
    unfold handled_tools in Hname. cbn [In] in Hname.
    repeat match goal with
      | |- context [String.eqb ?n ?s] =>
          destruct (String.eqb_spec n s); [exfalso; apply Hname; subst; auto 12 |]
      end.
    reflexivity. }
  split; [exact Hcall |].
  now apply inert_call_is_isolated.
Qed.


Lemma process_tool_call_escapes tool_call acc (w w' : world) e :
  process_tool_call tool_call acc w = (w', Raise e) -> caught_by_dispatch e = false.
Proof.
  unfold process_tool_call, try_except, bind, ret.
  destruct (tool_status tool_call w) as [w1 [status | e1]]; [discriminate |].
  destruct (caught_by_dispatch e1) eqn:Ecaught; [discriminate |].
  intros H. injection H as _ He. now subst e1.
Qed.

Lemma process_tool_calls_escapes tool_calls :
  forall acc (w w' : world) e,
    process_tool_calls tool_calls acc w = (w', Raise e) -> caught_by_dispatch e = false.
Proof.
  induction tool_calls as [| tool_call rest IH]; intros acc w w' e H.
  - discriminate.
  - cbn [process_tool_calls] in H. unfold bind in H.
    destruct (process_tool_call tool_call acc w) as [w1 [rs | e1]] eqn:E.
    + eapply IH; eauto.
    + injection H as _ He. subst e1. eapply process_tool_call_escapes; eauto.
Qed.

(** X7.  The four classes of the [except] clause never leave the loop
    over the calls.  When dispatch raises one of them all the same, every
    call of the batch had been processed and had its result, and the
    exception comes from the capture of the screen or of the UI tree
    after the loop, which nothing guards. *)
Theorem caught_classes_escape_only_from_the_capture :
  forall (tool_calls : list tool_call) (w w' : world) (e : exn),
    handle_tool_calls tool_calls w = (w', Raise e) ->
    caught_by_dispatch e = true ->
    exists w1 results,
      process_tool_calls tool_calls [] w = (w1, Ok results)
      /\ map tool_call_id results = map tc_id tool_calls
      /\ ((exists w2, take_screenshot w1 = (w2, Raise e) /\ w' = w2)
          \/ (exists w2 shot,
                 take_screenshot w1 = (w2, Ok shot)
                 /\ get_ui_hierarchy true w2 = (w', Raise e))).
Proof.
  intros tool_calls w w' e H Hcaught.
  unfold handle_tool_calls, bind in H.
  destruct (process_tool_calls tool_calls [] w) as [w1 [results | e1]] eqn:Eloop.
  - exists w1, results. split; [reflexivity |].
    destruct (process_tool_calls_shape _ _ _ _ _ Eloop) as (new & Hnew & Hids).
    cbn in Hnew. subst new. split; [exact Hids |].
    unfold augment_last, bind in H.
    destruct (take_screenshot w1) as [w2 [shot | e2]] eqn:Eshot.
    + right. exists w2, shot. split; [reflexivity |].
      destruct (get_ui_hierarchy true w2) as [w3 [ui | e3]] eqn:Eui.
      * destruct (rev results); unfold raise, ret in H;
          injection H as _ He; [subst e; discriminate | discriminate].
      * injection H as -> ->. reflexivity.
    + left. exists w2. injection H as -> ->. auto.
  - injection H as _ He. subst e1.
    rewrite (process_tool_calls_escapes _ _ _ _ _ Eloop) in Hcaught. discriminate.
Qed.

End InertCalls.

(** An unknown tool between two known ones. *)
Lemma unknown_tool_is_answered_not_run_witness :
  let call := Bench.call "call_2" "reboot" [] in
  process_tool_call call [] (Bench.fresh [])
  = (Bench.fresh [],
     Ok [{| tool_call_id := "call_2"; output := "Unknown tool call: reboot" |}]).
Proof.
  cbv zeta.
  destruct (unknown_tool_is_answered_not_run
              [Bench.call "call_1" "home" []] [Bench.call "call_3" "home" []]
              "call_2" "reboot" (ArgDecoded (DObject [])) (Bench.fresh []))
    as [Hcall _].
  - cbn. intuition discriminate.
  - intros msg. discriminate.
  - exact (Hcall [] (Bench.fresh [])).
Defined.

(** The device is gone when the screen is captured. *)
Lemma caught_classes_escape_only_from_the_capture_witness :
  exists w1 results,
    process_tool_calls [Bench.call "call_1" "home" []] []
      (Bench.fresh [Exit0 ""; SpawnError "No such file: adb"])
    = (w1, Ok results)
    /\ map tool_call_id results = ["call_1"].
Proof.
  destruct (caught_classes_escape_only_from_the_capture
              [Bench.call "call_1" "home" []]
              (Bench.fresh [Exit0 ""; SpawnError "No such file: adb"])
              _ _ eq_refl eq_refl) as (w1 & results & Hloop & Hids & _).
  exists w1, results. split; [exact Hloop | exact Hids].
Defined.

(** ** Gestures *)

Section Gestures.

Context {P : Platform}.



End Gestures.



(** ** Quoting of the typed text *)

Lemma has_char_app :
  forall (c : ascii) (a b : string),
    has_char c (a ++ b)%string = has_char c a || has_char c b.
Proof.
  intros c a b. induction a as [| d a IH]; cbn [String.append has_char].
  - reflexivity.
  - rewrite IH, orb_assoc. reflexivity.
Qed.

(** A replacement whose new text lacks a character brings none in. *)
Lemma replace_from_brings_no_char :
  forall (c : ascii) (old new : string),
    has_char c new = false ->
    forall (s : string) (skip : nat),
      has_char c s = false ->
      has_char c (Py.replace_from skip old new s) = false.
Proof.
  intros c old new Hnew s.
  induction s as [| d s IH]; intros skip Hs; cbn [Py.replace_from].
  - reflexivity.
  - cbn [has_char] in Hs. apply orb_false_iff in Hs as [Hd Hs].
    destruct skip as [| k].
    + destruct (prefix old (String d s)).
      * rewrite has_char_app, Hnew, IH by exact Hs. reflexivity.
      * cbn [has_char]. rewrite Hd, IH by exact Hs. reflexivity.
    + apply IH, Hs.
Qed.

(** Replacing a character by a text without it removes every
    occurrence. *)
Lemma replace_removes_char :
  forall (c : ascii) (new s : string),
    has_char c new = false ->
    has_char c (Py.replace (String c "") new s) = false.
Proof.
  intros c new s Hnew. unfold Py.replace.
  induction s as [| d s IH]; cbn [Py.replace_from].
  - reflexivity.
  - cbn [prefix String.length Nat.sub].
    destruct (ascii_dec c d) as [Hcd | Hcd].
    + destruct s; cbn [prefix]; rewrite has_char_app, Hnew, IH; reflexivity.
    + cbn [has_char]. rewrite IH, orb_false_r.
      apply Ascii.eqb_neq. congruence.
Qed.

Section Quoting.

Context {P : Platform}.

Lemma keeps_quoting_ret : forall {A} (a : A), keeps_quoting (ret a).
Proof. intros A a w H. exact H. Qed.

Lemma keeps_quoting_raise : forall {A} (e : exn), keeps_quoting (@raise P A e).
Proof. intros A e w H. exact H. Qed.

Lemma keeps_quoting_lift : forall {A} (o : outcome A), keeps_quoting (lift o).
Proof. intros A o w H. exact H. Qed.

Lemma keeps_quoting_bind :
  forall {A B} (m : M A) (k : A -> M B),
    keeps_quoting m -> (forall a, keeps_quoting (k a)) -> keeps_quoting (bind m k).
Proof.
  intros A B m k Hm Hk w H. unfold bind.
  specialize (Hm w H). destruct (m w) as [w' [a | e]]; cbn [fst] in *.
  - apply Hk, Hm.
  - exact Hm.
Qed.

Lemma keeps_quoting_try_except :
  forall {A} (m : M A) (caught : exn -> bool) (h : exn -> M A),
    keeps_quoting m -> (forall e, keeps_quoting (h e)) ->
    keeps_quoting (try_except m caught h).
Proof.
  intros A m caught h Hm Hh w H. unfold try_except.
  specialize (Hm w H). destruct (m w) as [w' [a | e]]; cbn [fst] in *.
  - exact Hm.
  - destruct (caught e); [apply Hh, Hm | exact Hm].
Qed.

Lemma keeps_quoting_emit :
  forall ev : event, quoted_text_event ev -> keeps_quoting (emit ev).
Proof.
  intros ev Hev w H. unfold emit. cbn [fst w_log].
  apply Forall_app. split; [exact H | constructor; [exact Hev | constructor]].
Qed.

Lemma keeps_quoting_run_shell_command :
  forall command : list string,
    quoted_text_event (EvAdb command) -> keeps_quoting (run_shell_command command).
Proof.
  intros command Hev w H. unfold run_shell_command.
  destruct (adb_shell (w_dev w) command) as [d' t].
  assert (Hlog : Forall quoted_text_event (w_log w ++ [EvAdb command])).
  { apply Forall_app. split; [exact H | constructor; [exact Hev | constructor]]. }
  destruct t; cbn [fst w_log]; exact Hlog.
Qed.

Lemma keeps_quoting_for_each :
  forall {A} (xs : list A) (body : A -> M unit),
    (forall x, keeps_quoting (body x)) -> keeps_quoting (for_each xs body).
Proof.
  intros A xs body Hbody. induction xs as [| x xs IH]; cbn [for_each].
  - apply keeps_quoting_ret.
  - apply keeps_quoting_bind; [apply Hbody | intros _; exact IH].
Qed.

Lemma keeps_quoting_subscript :
  forall (args : decoded) (key : string), keeps_quoting (subscript args key).
Proof.
  intros [items |] key; unfold subscript.
  - destruct (dict_get key items); [apply keeps_quoting_ret | apply keeps_quoting_raise].
  - apply keeps_quoting_raise.
Qed.

Lemma keeps_quoting_get_or :
  forall (args : decoded) (key : string) (default : pyval),
    keeps_quoting (get_or args key default).
Proof.
  intros [items |] key default; unfold get_or.
  - destruct (dict_get key items); apply keeps_quoting_ret.
  - apply keeps_quoting_raise.
Qed.

Lemma keeps_quoting_load_arguments :
  forall a : arguments, keeps_quoting (load_arguments a).
Proof.
  intros [| msg | v]; unfold load_arguments;
    [apply keeps_quoting_ret | apply keeps_quoting_raise | apply keeps_quoting_ret].
Qed.

(** The text [enter_text] types for a line has no single quote. *)
Lemma typed_text_has_no_quote :
  forall text : string,
    has_char "'"%char
      (Py.replace o_umlaut "o" (Py.replace euro_sign "EUR" (Py.replace "'" " " text)))
    = false.
Proof.
  intros text.
  apply replace_from_brings_no_char; [reflexivity |].
  apply replace_from_brings_no_char; [reflexivity |].
  apply replace_removes_char. reflexivity.
Qed.

Lemma keeps_quoting_enter_line :
  forall line : string, keeps_quoting (enter_line line).
Proof.
  intros line. unfold enter_line, sleep.
  apply keeps_quoting_bind.
  - apply keeps_quoting_run_shell_command. cbn [quoted_text_event].
    eexists. split; [reflexivity | apply typed_text_has_no_quote].
  - intros _. destruct (Py.endswith "---" line).
    + apply keeps_quoting_ret.
    + apply keeps_quoting_bind; [apply keeps_quoting_emit; exact I |].
      intros _. apply keeps_quoting_bind;
        [apply keeps_quoting_run_shell_command; exact I | intros _; apply keeps_quoting_ret].
Qed.

Lemma keeps_quoting_take_screenshot : keeps_quoting take_screenshot.
Proof.
  unfold take_screenshot, process_screenshot.
  apply keeps_quoting_bind; [apply keeps_quoting_run_shell_command; exact I |].
  intros data. apply keeps_quoting_bind; [| intros; apply keeps_quoting_ret].
  apply keeps_quoting_bind; [apply keeps_quoting_lift |].
  intros img. apply keeps_quoting_bind;
    [apply keeps_quoting_emit; exact I | intros _; apply keeps_quoting_ret].
Qed.

Lemma keeps_quoting_get_ui_hierarchy :
  forall clean : bool, keeps_quoting (get_ui_hierarchy clean).
Proof.
  intros clean. unfold get_ui_hierarchy.
  apply keeps_quoting_bind; [apply keeps_quoting_run_shell_command; exact I |].
  intros _. apply keeps_quoting_bind; [apply keeps_quoting_run_shell_command; exact I |].
  intros raw. apply keeps_quoting_bind; [apply keeps_quoting_lift |].
  intros result. destruct clean; [apply keeps_quoting_lift | apply keeps_quoting_ret].
Qed.

Ltac quoting_step :=
  first
    [ apply keeps_quoting_ret
    | apply keeps_quoting_raise
    | apply keeps_quoting_lift
    | apply keeps_quoting_subscript
    | apply keeps_quoting_get_or
    | apply keeps_quoting_load_arguments
    | apply keeps_quoting_take_screenshot
    | apply keeps_quoting_get_ui_hierarchy
    | apply keeps_quoting_emit; exact I
    | apply keeps_quoting_run_shell_command; exact I
    | apply keeps_quoting_for_each; intros; apply keeps_quoting_enter_line
    | apply keeps_quoting_bind; [| intros ?] ].

Lemma keeps_quoting_tool_status :
  forall tool_call : tool_call, keeps_quoting (tool_status tool_call).
Proof.
  intros [id name args]. unfold tool_status, sleep. cbn [tc_name tc_arguments].
  apply keeps_quoting_bind; [apply keeps_quoting_load_arguments |].
  intros decoded.
  repeat match goal with
         | |- keeps_quoting (if String.eqb ?n ?s then _ else _) =>
             destruct (String.eqb n s)
         end;
    repeat quoting_step;
    match goal with
    | |- keeps_quoting (match ?v with _ => _ end) => destruct v
    end;
    repeat quoting_step.
Qed.

Lemma keeps_quoting_process_tool_calls :
  forall (tool_calls : list tool_call) (tool_results : list (tool_result string)),
    keeps_quoting (process_tool_calls tool_calls tool_results).
Proof.
  intros tool_calls.
  induction tool_calls as [| tool_call rest IH]; intros tool_results;
    cbn [process_tool_calls].
  - apply keeps_quoting_ret.
  - apply keeps_quoting_bind; [| intros; apply IH].
    unfold process_tool_call. apply keeps_quoting_try_except.
    + apply keeps_quoting_bind; [apply keeps_quoting_tool_status |].
      intros; apply keeps_quoting_ret.
    + intros; apply keeps_quoting_ret.
Qed.

(** X10.  Whatever the tool calls and however the device answers,
    every [input text] command that [handle_tool_calls] sends carries
    its text between two single quotes with no single quote inside: the
    text that a model asks to type cannot close the quoting. *)
Theorem typed_text_cannot_close_its_quotes :
  forall (tool_calls : list tool_call) (w : world),
    Forall quoted_text_event (w_log w) ->
    Forall quoted_text_event (w_log (fst (handle_tool_calls tool_calls w))).
Proof.
  intros tool_calls. change (keeps_quoting (handle_tool_calls tool_calls)).
  unfold handle_tool_calls.
  apply keeps_quoting_bind; [apply keeps_quoting_process_tool_calls |].
  intros tool_results. unfold augment_last.
  apply keeps_quoting_bind; [apply keeps_quoting_take_screenshot |].
  intros shot. apply keeps_quoting_bind; [apply keeps_quoting_get_ui_hierarchy |].
  intros ui. destruct (rev tool_results);
    [apply keeps_quoting_raise | apply keeps_quoting_ret].
Qed.

End Quoting.

(** A text with single quotes typed on the bench. *)
Lemma typed_text_cannot_close_its_quotes_witness :
  Forall quoted_text_event (w_log (Bench.fresh []))
  /\ Forall quoted_text_event
       (w_log (fst (handle_tool_calls
                      [Bench.call "call_1" "enter_text" [("text", VStr "it's'; reboot '")]]
                      (Bench.fresh [])))).
Proof.
  split; [constructor |].
  apply (typed_text_cannot_close_its_quotes (P := Bench.platform)
           [Bench.call "call_1" "enter_text" [("text", VStr "it's'; reboot '")]]
           (Bench.fresh [])).
  constructor.
Defined.

(** ** Tool calls and their answers in the transcript *)

Lemma answered_app (t t' : transcript) :
  answered t -> answered t' -> answered (t ++ t').
Proof.
  intros Ht Ht'. induction Ht as [| msg t Hcalls Hrole Ht IH
                                   | msg tools t Hcalls Hrole Hids Htools Ht IH].
  - exact Ht'.
  - cbn [app]. apply answered_plain; assumption.
  - cbn [app]. rewrite <- app_assoc. apply answered_round; assumption.
Qed.

Lemma same_turns_tools (tools tools' : list message) :
  Forall2 same_turn tools tools' ->
  map m_tool_call_id tools' = map m_tool_call_id tools
  /\ (Forall (fun m => m_role m = "tool" /\ m_tool_calls m = []) tools ->
      Forall (fun m => m_role m = "tool" /\ m_tool_calls m = []) tools').
Proof.
  induction 1 as [| m m' tools tools' (Hrole & Hid & Hcalls & _) _ [IHids IHtools]].
  - split; [reflexivity | intros _; constructor].
  - split.
    + cbn [map]. rewrite Hid, IHids. reflexivity.
    + intros Hall. inversion Hall as [| ? ? [Hr Hc] Hrest]; subst.
      constructor; [split; congruence | apply IHtools, Hrest].
Qed.

(** Rewriting contents keeps the calls answered. *)
Lemma answered_same (t : transcript) :
  answered t -> forall t', Forall2 same_turn t t' -> answered t'.
Proof.
  induction 1 as [| msg t Hcalls Hrole Ht IH
                  | msg tools t Hcalls Hrole Hids Htools Ht IH]; intros t' Hsame.
  - inversion Hsame. constructor.
  - inversion Hsame as [| ? msg' ? rest (Hr & _ & Hc & _) Hrest]; subst.
    apply answered_plain; [congruence | congruence | apply IH, Hrest].
  - inversion Hsame as [| ? msg' ? rest (Hr & _ & Hc & _) Hrest]; subst.
    apply Forall2_app_inv_l in Hrest as (tools' & t'' & Htools' & Ht'' & ->).
    destruct (same_turns_tools tools tools' Htools') as [Hids' Hkeep].
    apply answered_round;
      [congruence | congruence | rewrite Hids', Hids, Hc; reflexivity
      | apply Hkeep, Htools | apply IH, Ht''].
Qed.

Section Answers.

Context {P : Platform}.

(** The turns one round appends: the assistant turn with its calls and
    one tool turn per call. *)
Lemma round_is_answered (assistant_message : message)
    (w w' : world) (tool_results : list (tool_result content)) :
  m_role assistant_message = ROLE_ASSISTANT ->
  handle_tool_calls (m_tool_calls assistant_message) w = (w', Ok tool_results) ->
  answered (assistant_message :: map tool_message tool_results).
Proof.
  intros Hrole Hrun.
  destruct (handle_tool_calls_shape _ _ _ _ Hrun) as (Hne & _ & Hids & _).
  rewrite <- (app_nil_r (map tool_message tool_results)).
  apply answered_round.
  - exact Hne.
  - rewrite Hrole. discriminate.
  - rewrite map_map. cbn [tool_message m_tool_call_id].
    rewrite <- (map_map tc_id Some), <- Hids, map_map. reflexivity.
  - apply Forall_map, Forall_forall. intros r _. split; reflexivity.
  - constructor.
Qed.

Lemma call_llm_loop_answered script :
  forall messages sent history w,
    Forall from_assistant script ->
    answered messages ->
    Forall answered sent ->
    let r := call_llm_loop script messages sent history w in
    Forall answered (r_sent r) /\ answered (r_messages r)
    /\ Forall from_assistant (r_script r).
Proof.
  induction script as [| reply script IH]; intros messages sent history w Hscript Hm Hsent.
  - cbn. repeat split; [apply Forall_app; split; [exact Hsent | repeat constructor; exact Hm]
                        | exact Hm | constructor].
  - assert (Hsent' : Forall answered (sent ++ [messages])).
    { apply Forall_app; split; [exact Hsent | repeat constructor; exact Hm]. }
    inversion Hscript as [| ? ? Hreply Hrest]; subst.
    destruct reply as [assistant_message | status_code text].
    + cbn [call_llm_loop].
      pose proof (clean_messages_same messages) as Hsame.
      destruct (clean_messages messages) as [messages' cleaned]. cbn [fst] in Hsame.
      assert (Hm' : answered messages') by (apply (answered_same messages); assumption).
      destruct cleaned as [[] | e]; [| cbn; auto].
      destruct (m_tool_calls (drop_empty_content assistant_message)) as [| c cs] eqn:Hcalls;
        [cbn; auto |].
      destruct (handle_tool_calls (c :: cs) _) as [w' [tool_results | e]] eqn:Hrun;
        [| cbn; auto].
      apply IH; [exact Hrest | | exact Hsent'].
      apply answered_app; [exact Hm' |].
      rewrite <- Hcalls in Hrun.
      apply (round_is_answered _ _ _ _ (eq_trans (drop_empty_content_role _) Hreply) Hrun).
    + cbn. auto.
Qed.

(** X11.  Against a backend whose replies have the assistant role, a
    run of [call_llm] that starts from a transcript in which every tool
    call is answered keeps it so: in every payload sent and in the
    transcript as left, retried or not, each turn with tool calls is
    followed at once by one tool turn per call, in the order of the
    calls and with their identifiers, and no tool turn stands
    elsewhere. *)
Theorem every_tool_call_is_answered :
  forall (script : list backend_reply) (messages : transcript) (w : world),
    Forall from_assistant script ->
    answered messages ->
    let r := call_llm script messages w in
    Forall answered (r_sent r) /\ answered (r_messages r).
Proof.
  intros script messages w Hscript Hm r. subst r. unfold call_llm.
  destruct (call_llm_loop_answered script messages [] [messages] w Hscript Hm (Forall_nil _))
    as (Hsent & Hleft & Hrest).
  destruct (r_verdict (call_llm_loop script messages [] [messages] w)).
  - split; assumption.
  - destruct (call_llm_loop_answered _ _ _ (r_history (call_llm_loop script messages [] [messages] w))
                (fst (sleep 2000 (r_world (call_llm_loop script messages [] [messages] w))))
                Hrest Hleft Hsent) as (H1 & H2 & _).
    split; assumption.
  - split; assumption.
Qed.

End Answers.

(** A round with two calls and the answer, on the bench. *)
Lemma every_tool_call_is_answered_witness :
  let r := call_llm
             [Reply (Bench.assistant "" [Bench.call "call_1" "home" [];
                                        Bench.call "call_2" "click" []]);
              Reply (Bench.assistant "Done." [])]
             (initial_transcript "You manage a phone." "Go home.")
             (Bench.fresh []) in
  Forall answered (r_sent r) /\ answered (r_messages r)
  /\ List.length (r_messages r) = 5%nat.
Proof.
  cbv zeta.
  pose proof (every_tool_call_is_answered (P := Bench.platform)
                [Reply (Bench.assistant "" [Bench.call "call_1" "home" [];
                                           Bench.call "call_2" "click" []]);
                 Reply (Bench.assistant "Done." [])]
                (initial_transcript "You manage a phone." "Go home.")
                (Bench.fresh [])) as H.
  cbv zeta in H.
  destruct H as [H1 H2].
  - repeat constructor.
  - apply answered_plain; [reflexivity | discriminate |].
    apply answered_plain; [reflexivity | discriminate | constructor].
  - split; [exact H1 | split; [exact H2 | reflexivity]].
Defined.

(** ** The lines of [enter_text] *)

Lemma split_never_empty (sep : ascii) (s : string) : Py.split sep s <> [].
Proof.
  destruct s as [| c s]; cbn [Py.split]; [discriminate |].
  destruct (Ascii.eqb c sep); [discriminate |].
  destruct (Py.split sep s); discriminate.
Qed.

Section Lines.

Context {P : Platform}.

Lemma enter_line_events (line : string) (w : world) :
  steady (w_dev w) ->
  exists w',
    enter_line line w = (w', Ok tt) /\ steady (w_dev w')
    /\ w_log w' = w_log w ++ line_events line.
Proof.
  intros H. unfold enter_line, line_events, bind, sleep, emit, ret.
  destruct (run_shell_command_steady
              ["input"; "text";
               ("'" ++ Py.replace o_umlaut "o"
                         (Py.replace euro_sign "EUR"
                            (Py.replace "'" " "
                               (if Py.endswith "---" line
                                then Py.drop_last 3 line else line))) ++ "'")%string]
              w H) as (out1 & w1 & E1 & H1 & L1).
  rewrite E1.
  destruct (Py.endswith "---" line).
  - eexists. split; [reflexivity | split; [exact H1 | exact L1]].
  - match goal with
    | |- context [run_shell_command ?c ?w0] =>
        destruct (run_shell_command_steady c w0 H1) as (out2 & w2 & E2 & H2 & L2)
    end.
    rewrite E2. eexists. split; [reflexivity | split; [exact H2 |]].
    rewrite L2. cbn [w_log]. rewrite L1, <- !app_assoc. reflexivity.
Qed.

Lemma for_each_enter_line_events (lines : list string) :
  forall w, steady (w_dev w) ->
  exists w',
    for_each lines enter_line w = (w', Ok tt) /\ steady (w_dev w')
    /\ w_log w' = w_log w ++ flat_map line_events lines.
Proof.
  induction lines as [| line rest IH]; intros w H.
  - cbn. unfold ret. exists w. rewrite app_nil_r. auto.
  - cbn [for_each flat_map]. unfold bind.
    destruct (enter_line_events line w H) as (w1 & -> & H1 & L1).
    destruct (IH w1 H1) as (w2 & E2 & H2 & L2).
    exists w2. rewrite L2, L1, <- app_assoc. auto.
Qed.


End Lines.


(** ** How [call_llm] ends *)

Section Endings.

Context {P : Platform}.

Lemma appends_ret : forall {A} (a : A), appends (ret a).
Proof. intros A a w. exists []. cbn. rewrite app_nil_r. reflexivity. Qed.

Lemma appends_raise : forall {A} (e : exn), appends (@raise P A e).
Proof. intros A e w. exists []. cbn. rewrite app_nil_r. reflexivity. Qed.

Lemma appends_lift : forall {A} (o : outcome A), appends (lift o).
Proof. intros A o w. exists []. cbn. rewrite app_nil_r. reflexivity. Qed.

Lemma appends_bind :
  forall {A B} (m : M A) (k : A -> M B),
    appends m -> (forall a, appends (k a)) -> appends (bind m k).
Proof.
  intros A B m k Hm Hk w. unfold bind.
  destruct (Hm w) as [added Hadded]. destruct (m w) as [w' [a | e]]; cbn [fst] in *.
  - destruct (Hk a w') as [more Hmore]. exists (added ++ more).
    rewrite Hmore, Hadded, app_assoc. reflexivity.
  - exists added. exact Hadded.
Qed.

Lemma appends_try_except :
  forall {A} (m : M A) (caught : exn -> bool) (h : exn -> M A),
    appends m -> (forall e, appends (h e)) -> appends (try_except m caught h).
Proof.
  intros A m caught h Hm Hh w. unfold try_except.
  destruct (Hm w) as [added Hadded]. destruct (m w) as [w' [a | e]]; cbn [fst] in *.
  - exists added. exact Hadded.
  - destruct (caught e); [| exists added; exact Hadded].
    destruct (Hh e w') as [more Hmore]. exists (added ++ more).
    rewrite Hmore, Hadded, app_assoc. reflexivity.
Qed.

Lemma appends_emit : forall ev : event, appends (emit ev).
Proof. intros ev w. exists [ev]. reflexivity. Qed.

Lemma appends_run_shell_command :
  forall command : list string, appends (run_shell_command command).
Proof.
  intros command w. exists [EvAdb command]. unfold run_shell_command.
  destruct (adb_shell (w_dev w) command) as [d' t]. destruct t; reflexivity.
Qed.

Lemma appends_for_each :
  forall {A} (xs : list A) (body : A -> M unit),
    (forall x, appends (body x)) -> appends (for_each xs body).
Proof.
  intros A xs body Hbody. induction xs as [| x xs IH]; cbn [for_each].
  - apply appends_ret.
  - apply appends_bind; [apply Hbody | intros _; exact IH].
Qed.

Lemma appends_subscript :
  forall (args : decoded) (key : string), appends (subscript args key).
Proof.
  intros [items |] key; unfold subscript.
  - destruct (dict_get key items); [apply appends_ret | apply appends_raise].
  - apply appends_raise.
Qed.

Lemma appends_get_or :
  forall (args : decoded) (key : string) (default : pyval),
    appends (get_or args key default).
Proof.
  intros [items |] key default; unfold get_or.
  - destruct (dict_get key items); apply appends_ret.
  - apply appends_raise.
Qed.

Lemma appends_load_arguments : forall a : arguments, appends (load_arguments a).
Proof.
  intros [| msg | v]; unfold load_arguments;
    [apply appends_ret | apply appends_raise | apply appends_ret].
Qed.

Ltac appends_step :=
  first
    [ apply appends_ret
    | apply appends_raise
    | apply appends_lift
    | apply appends_subscript
    | apply appends_get_or
    | apply appends_load_arguments
    | apply appends_emit
    | apply appends_run_shell_command
    | apply appends_bind; [| intros ?] ].

Lemma appends_enter_line : forall line : string, appends (enter_line line).
Proof.
  intros line. unfold enter_line, sleep.
  apply appends_bind; [apply appends_run_shell_command | intros _].
  destruct (Py.endswith "---" line); repeat appends_step.
Qed.

Lemma appends_take_screenshot : appends take_screenshot.
Proof. unfold take_screenshot, process_screenshot. repeat appends_step. Qed.

Lemma appends_get_ui_hierarchy : forall clean : bool, appends (get_ui_hierarchy clean).
Proof.
  intros clean. unfold get_ui_hierarchy. repeat appends_step.
  destruct clean; appends_step.
Qed.

Lemma appends_tool_status :
  forall tool_call : tool_call, appends (tool_status tool_call).
Proof.
  intros [id name args]. unfold tool_status, sleep. cbn [tc_name tc_arguments].
  apply appends_bind; [apply appends_load_arguments |].
  intros decoded.
  repeat match goal with
         | |- appends (if String.eqb ?n ?s then _ else _) =>
             destruct (String.eqb n s)
         end;
    repeat first [ appends_step | apply appends_take_screenshot ];
    match goal with
    | |- appends (match ?v with _ => _ end) => destruct v
    end;
    repeat first [ appends_step
                 | apply appends_for_each; intros; apply appends_enter_line ].
Qed.

Lemma appends_process_tool_calls :
  forall (tool_calls : list tool_call) (tool_results : list (tool_result string)),
    appends (process_tool_calls tool_calls tool_results).
Proof.
  intros tool_calls.
  induction tool_calls as [| tool_call rest IH]; intros tool_results;
    cbn [process_tool_calls].
  - apply appends_ret.
  - apply appends_bind; [| intros; apply IH].
    unfold process_tool_call. apply appends_try_except.
    + apply appends_bind; [apply appends_tool_status | intros; apply appends_ret].
    + intros; apply appends_ret.
Qed.

Lemma appends_handle_tool_calls :
  forall tool_calls : list tool_call, appends (handle_tool_calls tool_calls).
Proof.
  intros tool_calls. unfold handle_tool_calls.
  apply appends_bind; [apply appends_process_tool_calls |].
  intros tool_results. unfold augment_last.
  apply appends_bind; [apply appends_take_screenshot | intros shot].
  apply appends_bind; [apply appends_get_ui_hierarchy | intros ui].
  destruct (rev tool_results); [apply appends_raise | apply appends_ret].
Qed.

(** What every run of the loop does, however it ends: it calls the
    backend at least once, only appends to the log, and leaves a tail of
    the script. *)
Lemma call_llm_loop_progress script :
  forall messages sent history w,
    let r := call_llm_loop script messages sent history w in
    (S (List.length sent) <= List.length (r_sent r))%nat
    /\ (exists added, w_log (r_world r) = w_log w ++ added)
    /\ (exists used, script = used ++ r_script r).
Proof.
  induction script as [| reply script IH]; intros messages sent history w.
  - cbn. rewrite length_app. cbn. split; [lia |]. split; [eexists; reflexivity |].
    exists []. reflexivity.
  - assert (Hlen : (S (List.length sent) <= List.length (sent ++ [messages]))%nat)
      by (rewrite length_app; cbn; lia).
    destruct reply as [assistant_message | status_code text].
    + cbn [call_llm_loop].
      destruct (clean_messages messages) as [messages' cleaned].
      destruct cleaned as [[] | e];
        [| cbn; split; [exact Hlen | split; [eexists; reflexivity
                                            | exists [Reply assistant_message]; reflexivity]]].
      destruct (m_tool_calls (drop_empty_content assistant_message)) as [| c cs];
        [cbn; split; [exact Hlen | split; [eexists; reflexivity
                                          | exists [Reply assistant_message]; reflexivity]] |].
      destruct (appends_handle_tool_calls (c :: cs) (fst (emit (EvWrite "messages.json") w)))
        as [added Hadded].
      destruct (handle_tool_calls (c :: cs) _) as [w' [tool_results | e]];
        cbn [fst] in Hadded.
      * match goal with
        | |- context [call_llm_loop script ?m ?s ?h ?w0] =>
            destruct (IH m s h w0) as (H1 & (more & H2) & (used & H3))
        end.
        cbv zeta in *. split; [lia |]. split.
        -- rewrite H2, Hadded. cbn [emit fst w_log]. rewrite <- !app_assoc.
           eexists; reflexivity.
        -- exists (Reply assistant_message :: used). cbn [app]. congruence.
      * cbn. split; [exact Hlen |]. split.
        -- rewrite Hadded. cbn [emit fst w_log]. rewrite <- !app_assoc.
           eexists; reflexivity.
        -- exists [Reply assistant_message]; reflexivity.
    + cbn. split; [exact Hlen |]. split; [eexists; reflexivity |].
      exists [Refused status_code text]. reflexivity.
Qed.

(** X13.  An exception leaves [call_llm] only from a second attempt:
    the first attempt had raised, two seconds were waited during the
    call, and the backend has been called at least twice. *)
Theorem failure_surfaces_after_one_retry :
  forall (script : list backend_reply) (messages : transcript) (w : world) (e : exn),
    let r := call_llm script messages w in
    r_verdict r = Raised e ->
    (2 <= List.length (r_sent r))%nat
    /\ (exists before after,
          w_log (r_world r) = w_log w ++ before ++ EvSleep 2000 :: after)
    /\ exists first_failure,
         r_verdict (call_llm_loop script messages [] [messages] w) = Raised first_failure.
Proof.
  intros script messages w e r. subst r. unfold call_llm.
  destruct (call_llm_loop_progress script messages [] [messages] w)
    as (Hlen & (before & Hbefore) & _).
  cbv zeta in Hlen, Hbefore.
  destruct (r_verdict (call_llm_loop script messages [] [messages] w)) as [final | e1 |] eqn:Hfirst;
    intros Hr; try congruence.
  match goal with
  | _ : r_verdict (call_llm_loop ?s ?m ?sent ?h ?w0) = Raised e |- _ =>
      destruct (call_llm_loop_progress s m sent h w0) as (Hlen' & (added & Hlog) & _)
  end.
  cbv zeta in Hlen', Hlog. split; [cbn [List.length] in Hlen; lia |]. split.
  - exists before, added. rewrite Hlog. unfold sleep, emit. cbn [fst w_log].
    rewrite Hbefore, <- !app_assoc. reflexivity.
  - exists e1. reflexivity.
Qed.

Lemma call_llm_loop_returned script :
  forall messages sent history w final,
    let r := call_llm_loop script messages sent history w in
    r_verdict r = Returned final ->
    (exists reply, In (Reply reply) script /\ final = drop_empty_content reply
                   /\ m_tool_calls reply = [])
    /\ clean_messages (last (r_sent r) []) = (r_messages r, Ok tt).
Proof.
  induction script as [| reply script IH]; intros messages sent history w final.
  - cbn. discriminate.
  - destruct reply as [assistant_message | status_code text]; [| cbn; discriminate].
    cbn [call_llm_loop].
    destruct (clean_messages messages) as [messages' cleaned] eqn:Hclean.
    destruct cleaned as [[] | e]; [| cbn; discriminate].
    destruct (m_tool_calls (drop_empty_content assistant_message)) as [| c cs] eqn:Hcalls.
    + cbn. intros Hr. injection Hr as <-. split.
      * exists assistant_message. split; [left; reflexivity | split; [reflexivity |]].
        rewrite <- drop_empty_content_tool_calls. exact Hcalls.
      * rewrite last_last. exact Hclean.
    + destruct (handle_tool_calls (c :: cs) _) as [w' [tool_results | e]];
        [| cbn; discriminate].
      cbv zeta. intros Hr.
      apply IH in Hr as ((reply & Hin & Hfinal & Hnone) & Hlast).
      split; [| exact Hlast].
      exists reply. split; [right; exact Hin | split; assumption].
Qed.

Lemma call_llm_returned :
  forall (script : list backend_reply) (messages : transcript) (w : world) (final : message),
    let r := call_llm script messages w in
    r_verdict r = Returned final ->
    (exists reply, In (Reply reply) script /\ final = drop_empty_content reply
                   /\ m_tool_calls reply = [])
    /\ clean_messages (last (r_sent r) []) = (r_messages r, Ok tt).
Proof.
  intros script messages w final r. subst r. unfold call_llm.
  destruct (r_verdict (call_llm_loop script messages [] [messages] w)) eqn:Hfirst.
  - intros Hr.
    exact (call_llm_loop_returned script messages [] [messages] w final Hr).
  - intros Hr.
    destruct (call_llm_loop_progress script messages [] [messages] w) as (_ & _ & (used & Hused)).
    cbv zeta in Hused.
    apply call_llm_loop_returned in Hr as ((reply & Hin & Hrest) & Hlast).
    split; [| exact Hlast].
    exists reply. split; [| exact Hrest].
    rewrite Hused. apply in_or_app. right. exact Hin.
  - intros Hr. congruence.
Qed.

(** X14.  When [call_llm] returns, the reply it returns carries no tool
    call, and the transcript it returns is the last payload sent, pruned
    without failure: the final answer (as any reply without tool calls)
    is not appended to the transcript. *)
Theorem returned_answer_is_not_appended :
  forall (script : list backend_reply) (messages : transcript) (w : world) (final : message),
    let r := call_llm script messages w in
    r_verdict r = Returned final ->
    m_tool_calls final = []
    /\ clean_messages (last (r_sent r) []) = (r_messages r, Ok tt)
    /\ List.length (r_messages r) = List.length (last (r_sent r) []).
Proof.
  intros script messages w final r Hr. subst r.
  destruct (call_llm_returned script messages w final Hr)
    as ((reply & _ & -> & Hnone) & Hlast).
  split; [rewrite drop_empty_content_tool_calls; exact Hnone |].
  split; [exact Hlast |].
  pose proof (clean_messages_same (last (r_sent (call_llm script messages w)) [])) as Hsame.
  rewrite Hlast in Hsame. cbn [fst] in Hsame.
  symmetry. exact (Forall2_length Hsame).
Qed.

(** X15.  When the run of [main] returns, the reply is one of the
    backend's without tool calls.  If its content is missing, null or
    empty, the last print of [main] raises [KeyError('content')] instead
    of showing an empty answer, because the loop has deleted the key;
    otherwise it shows the content. *)
Theorem empty_final_answer_is_a_key_error :
  forall (system_prompt user_input : string) (script : list backend_reply)
         (w : world) (final : message),
    r_verdict (main system_prompt user_input script w) = Returned final ->
    exists reply,
      In (Reply reply) script
      /\ m_tool_calls reply = []
      /\ (falsy (m_content reply) = true ->
          printed_content final = Raise (KeyError "content"))
      /\ (forall c, m_content reply = Some c -> falsy (Some c) = false ->
          printed_content final = Ok c).
Proof.
  intros system_prompt user_input script w final Hr. unfold main in Hr.
  destruct (call_llm_returned script _ w final Hr) as ((reply & Hin & -> & Hnone) & _).
  exists reply. split; [exact Hin | split; [exact Hnone |]].
  unfold printed_content, drop_empty_content, falsy.
  destruct (m_content reply) as [[text | blocks] |] eqn:Hcontent;
    [destruct text | destruct blocks |];
    (split; [intros Hfalsy | intros c Hc Hfalsy]);
    cbn [m_content]; rewrite ?Hcontent;
    try (injection Hc as <-); congruence.
Qed.

End Endings.

(** A backend that refuses twice. *)
Lemma failure_surfaces_after_one_retry_witness :
  let r := call_llm [Refused 500 "busy"; Refused 500 "busy"]
             (initial_transcript "You manage a phone." "Go home.") (Bench.fresh []) in
  r_verdict r = Raised (PyException "Error calling Claude: 500 - busy")
  /\ (2 <= List.length (r_sent r))%nat
  /\ exists before after,
       w_log (r_world r) = w_log (Bench.fresh []) ++ before ++ EvSleep 2000 :: after.
Proof.
  cbv zeta. split; [reflexivity |].
  destruct (failure_surfaces_after_one_retry (P := Bench.platform)
              [Refused 500 "busy"; Refused 500 "busy"]
              (initial_transcript "You manage a phone." "Go home.") (Bench.fresh [])
              (PyException "Error calling Claude: 500 - busy") eq_refl)
    as (Hsent & Hslept & _).
  split; [exact Hsent | exact Hslept].
Defined.

(** One round and the answer. *)
Lemma returned_answer_is_not_appended_witness :
  let r := call_llm
             [Reply (Bench.assistant "" [Bench.call "call_1" "home" []]);
              Reply (Bench.assistant "Done." [])]
             (initial_transcript "You manage a phone." "Go home.") (Bench.fresh []) in
  r_verdict r = Returned (Bench.assistant "Done." [])
  /\ clean_messages (last (r_sent r) []) = (r_messages r, Ok tt)
  /\ List.length (r_messages r) = 4%nat.
Proof.
  cbv zeta. split; [reflexivity |].
  destruct (returned_answer_is_not_appended (P := Bench.platform)
              [Reply (Bench.assistant "" [Bench.call "call_1" "home" []]);
               Reply (Bench.assistant "Done." [])]
              (initial_transcript "You manage a phone." "Go home.") (Bench.fresh [])
              (Bench.assistant "Done." []) eq_refl)
    as (_ & Hpruned & _).
  split; [exact Hpruned | reflexivity].
Defined.

(** A last reply with an empty text. *)
Lemma empty_final_answer_is_a_key_error_witness :
  r_verdict (main "You manage a phone." "Go home." [Reply (Bench.assistant "" [])]
               (Bench.fresh []))
  = Returned (drop_empty_content (Bench.assistant "" []))
  /\ printed_content (drop_empty_content (Bench.assistant "" []))
     = Raise (KeyError "content").
Proof.
  split; [reflexivity |].
  destruct (empty_final_answer_is_a_key_error (P := Bench.platform)
              "You manage a phone." "Go home." [Reply (Bench.assistant "" [])]
              (Bench.fresh []) (drop_empty_content (Bench.assistant "" [])) eq_refl)
    as (reply & Hin & _ & Hempty & _).
  destruct Hin as [Hreply | []].
  injection Hreply as <-.
  apply Hempty. reflexivity.
Defined.

(** ** Screenshots in the context *)

Lemma image_turns_app (t t' : transcript) :
  image_turns (t ++ t') = (image_turns t + image_turns t')%nat.
Proof. unfold image_turns. rewrite filter_app, length_app. reflexivity. Qed.

Lemma image_turns_rev (t : transcript) : image_turns (rev t) = image_turns t.
Proof.
  induction t as [| msg t IH]; [reflexivity |].
  cbn [rev]. rewrite image_turns_app, IH.
  change (msg :: t) with ([msg] ++ t). rewrite image_turns_app. lia.
Qed.

Lemma image_turns_cons (msg : message) (t : transcript) :
  image_turns (msg :: t)
  = ((if holds_image msg then 1 else 0) + image_turns t)%nat.
Proof. unfold image_turns. cbn [filter]. destruct (holds_image msg); reflexivity. Qed.

(** What the filter keeps has no image. *)
Lemma kept_entries_no_image (content kept : list block) :
  kept_entries content = Ok kept ->
  existsb (fun entry => String.eqb (b_type entry) "image") kept = false.
Proof.
  revert kept. induction content as [| entry rest IH]; intros kept Hkept.
  - injection Hkept as <-. reflexivity.
  - cbn [kept_entries] in Hkept.
    destruct (should_keep entry) as [keep | e] eqn:Hkeep; [| discriminate].
    destruct (kept_entries rest) as [rest' | e]; [| discriminate].
    injection Hkept as <-. specialize (IH rest' eq_refl).
    destruct keep; [| exact IH].
    cbn [existsb]. rewrite IH, orb_false_r.
    unfold should_keep in Hkeep.
    destruct (String.eqb (b_type entry) "image"); [discriminate | reflexivity].
Qed.

(** The pass never adds an image, and when it returns it leaves images
    in no more turns than its budget. *)
Lemma clean_reversed_images newest_first :
  forall budget,
    let (cleaned, r) := clean_reversed budget newest_first in
    (image_turns cleaned <= image_turns newest_first)%nat
    /\ (r = Ok tt -> (0 <= budget)%Z -> (Z.of_nat (image_turns cleaned) <= budget)%Z)
    /\ (r = Ok tt -> (budget <= 0)%Z -> image_turns cleaned = 0%nat).
Proof.
  induction newest_first as [| msg older IH]; intros budget.
  - cbn. repeat split; intros; lia.
  - cbn [clean_reversed].
    assert (Hplain : holds_image msg = false ->
              let (cleaned, r) :=
                let (older', r) := clean_reversed budget older in (msg :: older', r) in
              (image_turns cleaned <= image_turns (msg :: older))%nat
              /\ (r = Ok tt -> (0 <= budget)%Z -> (Z.of_nat (image_turns cleaned) <= budget)%Z)
              /\ (r = Ok tt -> (budget <= 0)%Z -> image_turns cleaned = 0%nat)).
    { intros Hno. specialize (IH budget).
      destruct (clean_reversed budget older) as [older' r].
      rewrite !image_turns_cons, Hno. exact IH. }
    destruct (m_content msg) as [[text | content] |] eqn:Hcontent;
      [apply Hplain; unfold holds_image; rewrite Hcontent; reflexivity
      | | apply Hplain; unfold holds_image; rewrite Hcontent; reflexivity].
    clear Hplain.
    destruct (budget - 1 <? 0)%Z eqn:Hbudget.
    + apply Z.ltb_lt in Hbudget.
      destruct (kept_entries content) as [kept | e] eqn:Hkept.
      * specialize (IH (budget - 1)%Z).
        destruct (clean_reversed (budget - 1) older) as [older' r].
        destruct IH as (Hle & _ & Hzero).
        rewrite !image_turns_cons.
        assert (Hstripped : holds_image (set_content msg (CBlocks kept)) = false)
          by (unfold holds_image; cbn [set_content m_content];
              exact (kept_entries_no_image content kept Hkept)).
        rewrite Hstripped.
        split; [destruct (holds_image msg); lia |].
        split; intros Hr Hb; rewrite (Hzero Hr) by lia; lia.
      * split; [lia |]. split; discriminate.
    + apply Z.ltb_ge in Hbudget.
      specialize (IH (budget - 1)%Z).
      destruct (clean_reversed (budget - 1) older) as [older' r].
      destruct IH as (Hle & Hbound & _).
      rewrite !image_turns_cons.
      split; [lia |].
      split; intros Hr Hb; [| lia].
      specialize (Hbound Hr). destruct (holds_image msg); lia.
Qed.

Lemma clean_messages_images (messages : transcript) :
  (image_turns (fst (clean_messages messages)) <= image_turns messages)%nat
  /\ (snd (clean_messages messages) = Ok tt ->
      (image_turns (fst (clean_messages messages)) <= 2)%nat).
Proof.
  unfold clean_messages.
  pose proof (clean_reversed_images (rev messages) 2) as H.
  destruct (clean_reversed 2 (rev messages)) as [cleaned r]. cbn [fst snd].
  destruct H as (Hle & Hbound & _).
  rewrite image_turns_rev. rewrite image_turns_rev in Hle.
  split; [exact Hle |]. intros Hr. specialize (Hbound Hr). lia.
Qed.

Lemma drop_empty_content_image (msg : message) :
  holds_image (drop_empty_content msg) = holds_image msg.
Proof.
  unfold drop_empty_content, holds_image.
  destruct (m_content msg) as [[[| c text] | [| entry content]] |] eqn:H;
    cbn [m_content]; rewrite ?H; reflexivity.
Qed.

Section Screenshots.

Context {P : Platform}.

(** The tool turns of a round hold one image, in the last of them. *)
Lemma round_has_one_image (tool_calls : list tool_call) (w w' : world)
    (tool_results : list (tool_result content)) :
  handle_tool_calls tool_calls w = (w', Ok tool_results) ->
  image_turns (map tool_message tool_results) = 1%nat.
Proof.
  intros Hrun.
  destruct (handle_tool_calls_shape _ _ _ _ Hrun)
    as (_ & _ & _ & earlier & last_result & shot & ui & w1 & w2 & _ & _ & _ & ->).
  rewrite map_app, image_turns_app.
  assert (Hplain : image_turns (map tool_message (map plain earlier)) = 0%nat).
  { clear. induction earlier as [| r earlier IH]; [reflexivity |].
    cbn [map]. rewrite image_turns_cons, IH. reflexivity. }
  rewrite Hplain. reflexivity.
Qed.

Lemma call_llm_loop_images script :
  forall messages sent history w,
    Forall without_image script ->
    (image_turns messages <= 3)%nat ->
    Forall (fun payload => (image_turns payload <= 3)%nat) sent ->
    let r := call_llm_loop script messages sent history w in
    Forall (fun payload => (image_turns payload <= 3)%nat) (r_sent r)
    /\ (image_turns (r_messages r) <= 3)%nat
    /\ Forall without_image (r_script r).
Proof.
  induction script as [| reply script IH]; intros messages sent history w Hscript Hm Hsent.
  - cbn. repeat split; [apply Forall_app; split; [exact Hsent | constructor; [exact Hm | constructor]]
                        | exact Hm | constructor].
  - assert (Hsent' : Forall (fun payload => (image_turns payload <= 3)%nat) (sent ++ [messages])).
    { apply Forall_app; split; [exact Hsent | constructor; [exact Hm | constructor]]. }
    inversion Hscript as [| ? ? Hreply Hrest]; subst.
    destruct reply as [assistant_message | status_code text]; [| cbn; auto].
    cbn [call_llm_loop].
    destruct (clean_messages_images messages) as [Hle Hbound].
    destruct (clean_messages messages) as [messages' cleaned]. cbn [fst snd] in Hle, Hbound.
    destruct cleaned as [[] | e]; [| cbv zeta; cbn [r_sent r_messages r_script]; repeat split; [exact Hsent' | lia | exact Hrest]].
    specialize (Hbound eq_refl).
    destruct (m_tool_calls (drop_empty_content assistant_message)) as [| c cs] eqn:Hcalls;
      [cbv zeta; cbn [r_sent r_messages r_script]; repeat split; [exact Hsent' | lia | exact Hrest] |].
    destruct (handle_tool_calls (c :: cs) _) as [w' [tool_results | e]] eqn:Hrun;
      [| cbv zeta; cbn [r_sent r_messages r_script]; repeat split; [exact Hsent' | lia | exact Hrest]].
    apply IH; [exact Hrest | | exact Hsent'].
    rewrite image_turns_app, image_turns_cons, drop_empty_content_image.
    cbn [without_image] in Hreply. rewrite Hreply.
    rewrite (round_has_one_image _ _ _ _ Hrun). lia.
Qed.

(** X16.  Against a backend whose replies hold no image, a run of
    [call_llm] that starts from a transcript with images in at most
    three turns never sends a payload with images in more than three
    turns, however many rounds it takes and whether or not it is
    retried; the transcript it leaves has them in at most three turns
    too. *)
Theorem at_most_three_screenshots_are_sent :
  forall (script : list backend_reply) (messages : transcript) (w : world),
    Forall without_image script ->
    (image_turns messages <= 3)%nat ->
    let r := call_llm script messages w in
    Forall (fun payload => (image_turns payload <= 3)%nat) (r_sent r)
    /\ (image_turns (r_messages r) <= 3)%nat.
Proof.
  intros script messages w Hscript Hm r. subst r. unfold call_llm.
  destruct (call_llm_loop_images script messages [] [messages] w Hscript Hm (Forall_nil _))
    as (Hsent & Hleft & Hrest).
  destruct (r_verdict (call_llm_loop script messages [] [messages] w)).
  - split; assumption.
  - destruct (call_llm_loop_images _ _ _ (r_history (call_llm_loop script messages [] [messages] w))
                (fst (sleep 2000 (r_world (call_llm_loop script messages [] [messages] w))))
                Hrest Hleft Hsent) as (H1 & H2 & _).
    split; assumption.
  - split; assumption.
Qed.

End Screenshots.

(** Four rounds on the bench: the last payload holds three images. *)
Lemma at_most_three_screenshots_are_sent_witness :
  let round := Reply (Bench.assistant "" [Bench.call "call_1" "home" []]) in
  let r := call_llm [round; round; round; round]
             (initial_transcript "You manage a phone." "Go home.") (Bench.fresh []) in
  Forall (fun payload => (image_turns payload <= 3)%nat) (r_sent r)
  /\ (image_turns (r_messages r) <= 3)%nat
  /\ map image_turns (r_sent r) = [0; 1; 2; 3; 3]%nat.
Proof.
  cbv zeta.
  pose proof (at_most_three_screenshots_are_sent (P := Bench.platform)
                [Reply (Bench.assistant "" [Bench.call "call_1" "home" []]);
                 Reply (Bench.assistant "" [Bench.call "call_1" "home" []]);
                 Reply (Bench.assistant "" [Bench.call "call_1" "home" []]);
                 Reply (Bench.assistant "" [Bench.call "call_1" "home" []])]
                (initial_transcript "You manage a phone." "Go home.") (Bench.fresh [])) as H.
  cbv zeta in H.
  destruct H as [H1 H2].
  - repeat constructor.
  - cbn. lia.
  - split; [exact H1 | split; [exact H2 | reflexivity]].
Defined.

(** ** The catalogue and the dispatcher *)

Section Catalogue.

Context {P : Platform}.

Lemma bind_ok {A B} (m : M A) (k : A -> M B) (w w' : world) (b : B) :
  bind m k w = (w', Ok b) ->
  exists a w1, m w = (w1, Ok a) /\ k a w1 = (w', Ok b).
Proof.
  unfold bind. destruct (m w) as [w1 [a | e]]; [eauto | discriminate].
Qed.

(** Follow a computation that returned down to the value it returned. *)
Ltac returned_value E :=
  repeat match type of E with
         | bind _ _ _ = (_, Ok _) =>
             let E' := fresh "E" in
             apply bind_ok in E; destruct E as (? & ? & E' & E); clear E'
         | match ?v with _ => _ end _ = (_, Ok _) => destruct v
         | raise _ _ = (_, Ok _) => discriminate E
         end.

(** X17.  The dispatcher has a branch for each of the eight names of
    [handled_tools]: a call by one of them is never answered with
    [Unknown tool call].  Seven of them are the tools of
    [TOOL_DEFINITIONS]; the eighth, [screenshot], is handled but not in
    the catalogue sent to the backend. *)
Theorem catalogue_lacks_only_the_screenshot_tool :
  (forall (name id : string) (args : arguments) (w : world),
      In name handled_tools ->
      snd (tool_status {| tc_id := id; tc_name := name; tc_arguments := args |} w)
      <> Ok ("Unknown tool call: " ++ name)%string)
  /\ (forall name : string,
         In name handled_tools <->
         name = "screenshot" \/ In name (map fn_name TOOL_DEFINITIONS))
  /\ ~ In "screenshot" (map fn_name TOOL_DEFINITIONS).
Proof.
  split; [| split].
  - intros name id args w Hin Hunknown.
    destruct (tool_status {| tc_id := id; tc_name := name; tc_arguments := args |} w)
      as [w' [status | e]] eqn:E; cbn [snd] in Hunknown; [| discriminate].
    injection Hunknown as ->.
    unfold tool_status in E. cbn [tc_name tc_arguments] in E.
    apply bind_ok in E. destruct E as (decoded & w1 & _ & E).
    unfold handled_tools in Hin. cbn [In] in Hin.
    repeat (destruct Hin as [<- | Hin];
            [cbn [String.eqb Ascii.eqb Bool.eqb] in E; returned_value E;
             unfold ret in E; cbn [String.append] in E; discriminate E |]).
    exact Hin.
  - intros name. unfold handled_tools. cbn. intuition congruence.
  - cbn. intuition discriminate.
Qed.

End Catalogue.

(** The screenshot tool on the bench. *)
Lemma catalogue_lacks_only_the_screenshot_tool_witness :
  In "screenshot"%string handled_tools
  /\ snd (tool_status (Bench.call "call_1" "screenshot" []) (Bench.fresh []))
     <> Ok "Unknown tool call: screenshot"%string
  /\ ~ In "screenshot"%string (map fn_name TOOL_DEFINITIONS).
Proof.
  destruct (catalogue_lacks_only_the_screenshot_tool (P := Bench.platform))
    as (Hhandled & _ & Hmissing).
  assert (Hin : In "screenshot"%string handled_tools)
    by (unfold handled_tools; cbn; auto 8).
  split; [exact Hin |].
  split; [exact (Hhandled "screenshot"%string "call_1"%string
                   (ArgDecoded (DObject [])) (Bench.fresh []) Hin)
         | exact Hmissing].
Defined.

(** ** Rounds without end *)

Lemma block_sublist_typed (kept content : list block) :
  block_sublist kept content -> Forall typed_block content -> Forall typed_block kept.
Proof.
  induction 1 as [| b l l' _ IH | b l l' _ IH]; intros Hall.
  - constructor.
  - inversion Hall; subst. constructor; auto.
  - inversion Hall; subst. auto.
Qed.

Lemma same_turns_typed (t t' : transcript) :
  Forall2 same_turn t t' -> Forall typed_turn t -> Forall typed_turn t'.
Proof.
  induction 1 as [| m m' t t' (_ & _ & _ & Hcontent) _ IH]; intros Hall.
  - constructor.
  - inversion Hall as [| ? ? Hm Ht]; subst. constructor; [| apply IH, Ht].
    intros content Hc. destruct Hcontent as [Heq | (blocks & blocks' & Hb & Hb' & Hsub)].
    + apply Hm. congruence.
    + rewrite Hb' in Hc. injection Hc as <-.
      exact (block_sublist_typed _ _ Hsub (Hm blocks Hb)).
Qed.

Lemma drop_empty_content_typed (msg : message) :
  typed_turn msg -> typed_turn (drop_empty_content msg).
Proof.
  intros Hm content. unfold drop_empty_content.
  destruct (m_content msg) as [[[| c text] | [| entry rest]] |] eqn:H;
    cbn [m_content]; try discriminate; rewrite ?H; intros Hc;
    apply Hm; congruence.
Qed.

Section Rounds.

Context {P : Platform}.
Hypothesis libraries : cooperative.

Lemma round_is_typed (tool_calls : list tool_call) (w w' : world)
    (tool_results : list (tool_result content)) :
  handle_tool_calls tool_calls w = (w', Ok tool_results) ->
  Forall typed_turn (map tool_message tool_results).
Proof.
  intros Hrun.
  destruct (handle_tool_calls_shape _ _ _ _ Hrun)
    as (_ & _ & _ & earlier & last_result & shot & ui & w1 & w2 & _ & _ & _ & ->).
  rewrite map_app. apply Forall_app. split.
  - clear. induction earlier as [| r earlier IH]; constructor; [| exact IH].
    intros content Hc. discriminate Hc.
  - constructor; [| constructor].
    intros content Hc. cbn in Hc. injection Hc as <-.
    constructor; [left; reflexivity |].
    constructor; [right; eexists; reflexivity |].
    constructor; [right; eexists; reflexivity | constructor].
Qed.

Lemma call_llm_loop_goes_on script :
  forall messages sent history w,
    steady (w_dev w) ->
    Forall typed_turn messages ->
    Forall asks_for_tools script ->
    let r := call_llm_loop script messages sent history w in
    r_verdict r = Waiting
    /\ r_script r = []
    /\ List.length (r_sent r) = (List.length sent + S (List.length script))%nat.
Proof.
  induction script as [| reply script IH]; intros messages sent history w Hsteady Hm Hscript.
  - cbn. rewrite length_app. cbn. auto.
  - inversion Hscript as [| ? ? Hreply Hrest]; subst.
    destruct reply as [assistant_message | status_code text]; [| destruct Hreply].
    destruct Hreply as (Hne & Htyped & Hturn).
    cbn [call_llm_loop].
    pose proof (clean_messages_returns messages Hm) as Hreturns.
    pose proof (clean_messages_same messages) as Hsame.
    destruct (clean_messages messages) as [messages' cleaned].
    cbn [fst snd] in Hreturns, Hsame. subst cleaned.
    rewrite drop_empty_content_tool_calls.
    destruct (m_tool_calls assistant_message) as [| c cs] eqn:Hcalls; [congruence |].
    destruct (handle_tool_calls_steady libraries (c :: cs)
                (fst (emit (EvWrite "messages.json") w)))
      as (w' & tool_results & Hrun & Hsteady'); [exact Hsteady | exact Htyped | discriminate |].
    rewrite Hrun.
    match goal with
    | |- context [call_llm_loop script ?m ?s ?h w'] =>
        destruct (IH m s h w' Hsteady') as (H1 & H2 & H3)
    end.
    + apply Forall_app. split; [exact (same_turns_typed _ _ Hsame Hm) |].
      constructor; [exact (drop_empty_content_typed _ Hturn) |].
      exact (round_is_typed _ _ _ _ Hrun).
    + exact Hrest.
    + cbv zeta in *. split; [exact H1 | split; [exact H2 |]].
      rewrite H3, length_app. cbn [List.length]. lia.
Qed.


End Rounds.


(** ** What pruning leaves alone *)

(** X19.  Pruning keeps the turns: the transcript comes out with as
    many turns as it went in, and each turn keeps its role, its call
    identifier and its tool calls.  A content that is a string, or
    missing, is left as it is; a content that is a list of blocks comes
    out as a sublist of it, in the same order.  This holds also when the
    pruning stops with an exception. *)
Theorem clean_messages_only_shrinks_block_lists :
  forall messages : transcript,
    List.length (fst (clean_messages messages)) = List.length messages
    /\ Forall2 same_turn messages (fst (clean_messages messages))
    /\ Forall2 (fun before after =>
                  (forall blocks, m_content before <> Some (CBlocks blocks)) ->
                  after = before)
               messages (fst (clean_messages messages)).
Proof.
  intros messages.
  pose proof (clean_messages_same messages) as Hsame.
  split; [symmetry; exact (Forall2_length Hsame) |].
  split; [exact Hsame |].
  induction Hsame as [| before after t t' (Hrole & Hid & Hcalls & Hcontent) _ IH];
    constructor; [| exact IH].
  intros Hplain.
  destruct Hcontent as [Heq | (blocks & _ & Hb & _)]; [| elim (Hplain blocks Hb)].
  destruct before, after. cbn in *. congruence.
Qed.
